(** * Breathe: the session timer and the music controller of the breathing widget

    A shallow embedding of the [App] component (state machine, per-frame
    [tick], music handlers), of the phase table of [constants.ts] and of the
    enums of [types.ts].

    Conventions of the embedding.

    - Timestamps ([performance.now()], the argument of a frame callback) are
      JavaScript numbers.  They are modelled as rationals [Q]; [%],
      [Math.max], [Math.ceil] and [Math.round] are the exact operations on
      [Q].  The timer arithmetic is given twice: [handleResume] and [tick]
      compute with exact sums and differences, and module [Rounded] repeats
      them with every arithmetic result rounded to binary64, as the code
      computes it; what depends on the rounding is stated on [Rounded].
    - Integral quantities (the volume of the slider and of the player, the
      configured duration in seconds, phase durations) are [Z].
    - A handler body runs against the values captured by the render that
      created it ([Render]) and mutates the rest of the world ([World]):
      React state setters, refs, the module-level singletons, pending timers.
    - The two audio backends are external objects.  The model keeps the
      attributes the code reads back (volume, mute flag, reported player
      state) and the list of playback requests issued to each of them, most
      recent first.
    - [YT.Player] is taken as the source declares it: a player object has
      all its methods, so [typeof ytPlayer.m === 'function'] holds exactly
      when [ytPlayer] is not null.
    - A frame callback is pending exactly while the session is Active (the
      effect on [appState] requests and cancels it), so [animationFrameRef]
      is not a cell of the model.
    - Left out: the rendered markup, the icons and the reduced-motion
      preference, none of which the handlers read. *)

From Stdlib Require Import ZArith QArith Qround Qpower Lia Lqa List Ascii.
From stdpp Require Import base option strings pretty gmap.
Import ListNotations.

Local Open Scope Z_scope.

(** ** types.ts *)

Inductive AppState := Idle | Active | Paused | Complete.

Inductive BreathingPhase := Inhale | HoldIn | Exhale | HoldOut.

Record PhaseConfig := mkPhaseConfig {
  pc_name : string;
  pc_duration : Z;
  pc_announcement : string
}.

#[global] Instance AppState_eq_dec : EqDecision AppState.
Proof. solve_decision. Defined.

#[global] Instance BreathingPhase_eq_dec : EqDecision BreathingPhase.
Proof. solve_decision. Defined.

(** ** JavaScript number operations on exact rationals *)

Module JS.

(** Truncation toward zero, the rounding of the quotient in [a % b]. *)
Definition trunc (q : Q) : Z :=
  if Qle_bool 0 q then Qfloor q else Qceiling q.

(** [a % b] for a divisor other than 0: the remainder has the sign of the
    dividend. *)
Definition rem (a b : Q) : Q := (a - b * inject_Z (trunc (a / b)))%Q.

(** [Math.max(a, b)] *)
Definition max (a b : Q) : Q := if Qle_bool a b then b else a.

(** [Math.ceil(q)] *)
Definition ceil (q : Q) : Z := Qceiling q.

(** [Math.round(q)]: nearest integer, halves toward +infinity. *)
Definition round (q : Q) : Z := Qfloor (q + (1 # 2))%Q.

(** [a < b] on numbers *)
Definition ltb (a b : Q) : bool := negb (Qle_bool b a).

End JS.

(** ** constants.ts *)

Definition DURATION_OPTIONS : list Z := [120; 180; 300].
Definition DEFAULT_DURATION : Z := 120.

(** The object literal [PHASES], as its entries in insertion order (the
    order [Object.keys] and [Object.values] follow for string keys). *)
Definition PHASES : list (BreathingPhase * PhaseConfig) :=
  [ (Inhale,  mkPhaseConfig "吸氣…" 4000 "吸氣開始");
    (HoldIn,  mkPhaseConfig "閉氣…" 2000 "閉氣開始");
    (Exhale,  mkPhaseConfig "吐氣…" 6000 "吐氣開始");
    (HoldOut, mkPhaseConfig "休息…" 4000 "休息開始") ].

Definition Object_keys {K V} (o : list (K * V)) : list K := map fst o.
Definition Object_values {K V} (o : list (K * V)) : list V := map snd o.

(** Property access [o[p]]; [None] stands for [undefined]. *)
Fixpoint prop_get (o : list (BreathingPhase * PhaseConfig)) (p : BreathingPhase)
  : option PhaseConfig :=
  match o with
  | [] => None
  | (k, c) :: rest => if decide (k = p) then Some c else prop_get rest p
  end.

(** [PHASES[p]]: every phase is a key of the table (see [PHASES_total]), the
    default below is never reached. *)
Definition PHASES_at (p : BreathingPhase) : PhaseConfig :=
  default (mkPhaseConfig "" 0 "") (prop_get PHASES p).

(** [Object.values(PHASES).reduce((sum, phase) => sum + phase.duration, 0)] *)
Definition CYCLE_DURATION : Z :=
  fold_left (fun sum phase => sum + pc_duration phase) (Object_values PHASES) 0.

(** ** The external audio backends *)

(** [YT.PlayerState] *)
Inductive PlayerState := UNSTARTED | ENDED | PLAYING | PAUSED | BUFFERING | CUED.

#[global] Instance PlayerState_eq_dec : EqDecision PlayerState.
Proof. solve_decision. Defined.

(** Playback requests sent to the YouTube player. *)
Inductive PlayerCall :=
| PlayVideo
| PauseVideo
| StopVideo
| SeekTo (seconds : Z) (allowSeekAhead : bool).

(** The primary backend.  [yt_state] is what [getPlayerState()] reports: it
    is changed by the player itself ([PlayerStateChange] below), never by
    the widget.  [yt_volume] and [yt_muted] are what [getVolume()] and
    [isMuted()] read back. *)
Record Player := mkPlayer {
  yt_state : PlayerState;
  yt_volume : Z;
  yt_muted : bool;
  yt_calls : list PlayerCall
}.

Definition yt_request (c : PlayerCall) (p : Player) : Player :=
  mkPlayer (yt_state p) (yt_volume p) (yt_muted p) (c :: yt_calls p).
Definition yt_setVolume (v : Z) (p : Player) : Player :=
  mkPlayer (yt_state p) v (yt_muted p) (yt_calls p).
Definition yt_setMuted (m : bool) (p : Player) : Player :=
  mkPlayer (yt_state p) (yt_volume p) m (yt_calls p).
Definition yt_report (st : PlayerState) (p : Player) : Player :=
  mkPlayer st (yt_volume p) (yt_muted p) (yt_calls p).

(** Playback requests sent to the [<audio>] element. *)
Inductive AudioCall := AudioPlay | AudioPause.

(** The backup backend, an [HTMLAudioElement]; its volume ranges over 0..1. *)
Record HTMLAudioElement := mkAudio {
  au_volume : Q;
  au_muted : bool;
  au_currentTime : Q;
  au_calls : list AudioCall
}.

Definition au_request (c : AudioCall) (a : HTMLAudioElement) : HTMLAudioElement :=
  mkAudio (au_volume a) (au_muted a) (au_currentTime a) (c :: au_calls a).
Definition au_setVolume (v : Q) (a : HTMLAudioElement) : HTMLAudioElement :=
  mkAudio v (au_muted a) (au_currentTime a) (au_calls a).
Definition au_setMuted (m : bool) (a : HTMLAudioElement) : HTMLAudioElement :=
  mkAudio (au_volume a) m (au_currentTime a) (au_calls a).
Definition au_setCurrentTime (t : Q) (a : HTMLAudioElement) : HTMLAudioElement :=
  mkAudio (au_volume a) (au_muted a) t (au_calls a).

(** ** The state of the component *)

(** The values a render binds and its closures capture. *)
Record Render := mkRender {
  r_appState : AppState;
  r_duration : Z;
  r_isMuted : bool;
  r_volume : Z;
  r_useFallback : bool
}.

(** The pending [setTimeout] of [playMusic]; its callback closes over the
    [volume] and [isMuted] of the render whose [playMusic] armed it. *)
Record Watchdog := mkWatchdog {
  wd_due : Q;
  wd_volume : Z;
  wd_isMuted : bool
}.

(** The pending [setInterval] of [smoothSetVolume] with the variables its
    callback closes over. *)
Record Smoothing := mkSmoothing {
  sm_due : Q;
  sm_from : Z;
  sm_step : Q;
  sm_i : Z
}.

(** The pending [setTimeout(handleStart, 100)] of [handleRestart]. *)
Record Restart := mkRestart {
  rs_due : Q;
  rs_closure : Render
}.

(** JSON values kept in the browser storage. *)
Inductive JSON := JBool (b : bool) | JNum (n : Z).

(** [useState] and [usePersistentState] cells. *)
Record ReactState := mkReactState {
  rs_appState : AppState;
  rs_remainingTime : Z;
  rs_currentPhase : BreathingPhase;
  rs_ariaAnnouncement : string;
  rs_useFallback : bool;
  rs_showYoutubeError : bool;
  rs_duration : Z;
  rs_isMuted : bool;
  rs_volume : Z
}.

(** [useRef] cells.  [fallbackTimeoutRef] is modelled by the timer it
    designates while that timer is pending: every arming clears the previous
    timer first, and [clearTimeout] of an id that fired or was cleared does
    nothing. *)
Record Refs := mkRefs {
  ref_fallbackTimeout : option Watchdog;
  ref_startTime : Q;
  ref_pauseTime : Q;
  ref_lastPhase : option BreathingPhase
}.

(** The module-level singletons. *)
Record Globals := mkGlobals {
  g_ytPlayer : option Player;
  g_fallbackAudio : option HTMLAudioElement;
  g_smoothVolumeInterval : option Smoothing
}.

(** What surrounds the component: the browser storage, the texts passed to
    [setAriaAnnouncement] so far (most recent first), the pending restart
    timers (oldest first) and the render captured by the mount effect. *)
Record Env := mkEnv {
  env_localStorage : gmap string JSON;
  env_announced : list string;
  env_restart : list Restart;
  env_mounted : Render
}.

Record World := mkWorld {
  react : ReactState;
  refs : Refs;
  globals : Globals;
  env : Env
}.

(** Reading the cells, under the names of the source. *)
Definition appState (w : World) := rs_appState (react w).
Definition remainingTime (w : World) := rs_remainingTime (react w).
Definition currentPhase (w : World) := rs_currentPhase (react w).
Definition ariaAnnouncement (w : World) := rs_ariaAnnouncement (react w).
Definition useFallback (w : World) := rs_useFallback (react w).
Definition showYoutubeError (w : World) := rs_showYoutubeError (react w).
Definition duration (w : World) := rs_duration (react w).
Definition isMuted (w : World) := rs_isMuted (react w).
Definition volume (w : World) := rs_volume (react w).
Definition fallbackTimeoutRef (w : World) := ref_fallbackTimeout (refs w).
Definition startTimeRef (w : World) := ref_startTime (refs w).
Definition pauseTimeRef (w : World) := ref_pauseTime (refs w).
Definition lastPhaseRef (w : World) := ref_lastPhase (refs w).
Definition ytPlayer (w : World) := g_ytPlayer (globals w).
Definition fallbackAudio (w : World) := g_fallbackAudio (globals w).
Definition smoothVolumeInterval (w : World) := g_smoothVolumeInterval (globals w).
Definition localStorage (w : World) := env_localStorage (env w).
Definition announced (w : World) := env_announced (env w).
Definition restartTimeout (w : World) := env_restart (env w).
Definition mounted (w : World) := env_mounted (env w).

Arguments appState w /.
Arguments remainingTime w /.
Arguments currentPhase w /.
Arguments ariaAnnouncement w /.
Arguments useFallback w /.
Arguments showYoutubeError w /.
Arguments duration w /.
Arguments isMuted w /.
Arguments volume w /.
Arguments fallbackTimeoutRef w /.
Arguments startTimeRef w /.
Arguments pauseTimeRef w /.
Arguments lastPhaseRef w /.
Arguments ytPlayer w /.
Arguments fallbackAudio w /.
Arguments smoothVolumeInterval w /.
Arguments localStorage w /.
Arguments announced w /.
Arguments restartTimeout w /.
Arguments mounted w /.

(** The bindings of the render of the current state. *)
Definition render (w : World) : Render :=
  mkRender (appState w) (duration w) (isMuted w) (volume w) (useFallback w).

(** ** Commands: the statements of a handler body *)

Definition Cmd := World -> World.

Definition skip : Cmd := fun w => w.
Definition andThen (c1 c2 : Cmd) : Cmd := fun w => c2 (c1 w).
Definition when (b : bool) (c : Cmd) : Cmd := if b then c else skip.

Declare Scope cmd_scope.
Delimit Scope cmd_scope with cmd.
Bind Scope cmd_scope with Cmd.
Notation "c1 >> c2" := (andThen c1 c2)
  (at level 61, left associativity) : cmd_scope.
Local Open Scope cmd_scope.

Definition upd_react (f : ReactState -> ReactState) : Cmd :=
  fun w => mkWorld (f (react w)) (refs w) (globals w) (env w).
Definition upd_refs (f : Refs -> Refs) : Cmd :=
  fun w => mkWorld (react w) (f (refs w)) (globals w) (env w).
Definition upd_globals (f : Globals -> Globals) : Cmd :=
  fun w => mkWorld (react w) (refs w) (f (globals w)) (env w).
Definition upd_env (f : Env -> Env) : Cmd :=
  fun w => mkWorld (react w) (refs w) (globals w) (f (env w)).

(** *** State setters *)

Definition setAppState (v : AppState) : Cmd :=
  upd_react (fun s => mkReactState v (rs_remainingTime s) (rs_currentPhase s)
    (rs_ariaAnnouncement s) (rs_useFallback s) (rs_showYoutubeError s)
    (rs_duration s) (rs_isMuted s) (rs_volume s)).

Definition setRemainingTime (v : Z) : Cmd :=
  upd_react (fun s => mkReactState (rs_appState s) v (rs_currentPhase s)
    (rs_ariaAnnouncement s) (rs_useFallback s) (rs_showYoutubeError s)
    (rs_duration s) (rs_isMuted s) (rs_volume s)).

Definition setCurrentPhase (v : BreathingPhase) : Cmd :=
  upd_react (fun s => mkReactState (rs_appState s) (rs_remainingTime s) v
    (rs_ariaAnnouncement s) (rs_useFallback s) (rs_showYoutubeError s)
    (rs_duration s) (rs_isMuted s) (rs_volume s)).

(** [setAriaAnnouncement(text)]; the call is also recorded in [announced]. *)
Definition setAriaAnnouncement (text : string) : Cmd :=
  upd_react (fun s => mkReactState (rs_appState s) (rs_remainingTime s)
    (rs_currentPhase s) text (rs_useFallback s) (rs_showYoutubeError s)
    (rs_duration s) (rs_isMuted s) (rs_volume s)) >>
  upd_env (fun e => mkEnv (env_localStorage e) (text :: env_announced e)
    (env_restart e) (env_mounted e)).

Definition setUseFallback (v : bool) : Cmd :=
  upd_react (fun s => mkReactState (rs_appState s) (rs_remainingTime s)
    (rs_currentPhase s) (rs_ariaAnnouncement s) v (rs_showYoutubeError s)
    (rs_duration s) (rs_isMuted s) (rs_volume s)).

Definition setShowYoutubeError (v : bool) : Cmd :=
  upd_react (fun s => mkReactState (rs_appState s) (rs_remainingTime s)
    (rs_currentPhase s) (rs_ariaAnnouncement s) (rs_useFallback s) v
    (rs_duration s) (rs_isMuted s) (rs_volume s)).

(** Modelled from the spec: [hooks/usePersistentState] is not among the
    sources.  The spec describes it as a key-value wrapper over durable
    browser storage with JSON-serializable values: its setter updates the
    state cell and stores the value under the key given to the hook. *)
Definition persist (key : string) (v : JSON) : Cmd :=
  upd_env (fun e => mkEnv (<[key := v]> (env_localStorage e)) (env_announced e)
    (env_restart e) (env_mounted e)).

Definition setDuration (v : Z) : Cmd :=
  upd_react (fun s => mkReactState (rs_appState s) (rs_remainingTime s)
    (rs_currentPhase s) (rs_ariaAnnouncement s) (rs_useFallback s)
    (rs_showYoutubeError s) v (rs_isMuted s) (rs_volume s)) >>
  persist "duration" (JNum v).

Definition setIsMuted (v : bool) : Cmd :=
  upd_react (fun s => mkReactState (rs_appState s) (rs_remainingTime s)
    (rs_currentPhase s) (rs_ariaAnnouncement s) (rs_useFallback s)
    (rs_showYoutubeError s) (rs_duration s) v (rs_volume s)) >>
  persist "isMuted" (JBool v).

Definition setVolume (v : Z) : Cmd :=
  upd_react (fun s => mkReactState (rs_appState s) (rs_remainingTime s)
    (rs_currentPhase s) (rs_ariaAnnouncement s) (rs_useFallback s)
    (rs_showYoutubeError s) (rs_duration s) (rs_isMuted s) v) >>
  persist "bgmVolume" (JNum v).

(** *** Assignments to refs, singletons and timers *)

Definition set_fallbackTimeoutRef (v : option Watchdog) : Cmd :=
  upd_refs (fun r => mkRefs v (ref_startTime r) (ref_pauseTime r) (ref_lastPhase r)).
Definition set_startTimeRef (v : Q) : Cmd :=
  upd_refs (fun r => mkRefs (ref_fallbackTimeout r) v (ref_pauseTime r) (ref_lastPhase r)).
Definition set_pauseTimeRef (v : Q) : Cmd :=
  upd_refs (fun r => mkRefs (ref_fallbackTimeout r) (ref_startTime r) v (ref_lastPhase r)).
Definition set_lastPhaseRef (v : option BreathingPhase) : Cmd :=
  upd_refs (fun r => mkRefs (ref_fallbackTimeout r) (ref_startTime r) (ref_pauseTime r) v).

Definition set_ytPlayer (v : option Player) : Cmd :=
  upd_globals (fun g => mkGlobals v (g_fallbackAudio g) (g_smoothVolumeInterval g)).
Definition set_fallbackAudio (v : option HTMLAudioElement) : Cmd :=
  upd_globals (fun g => mkGlobals (g_ytPlayer g) v (g_smoothVolumeInterval g)).
Definition set_smoothVolumeInterval (v : option Smoothing) : Cmd :=
  upd_globals (fun g => mkGlobals (g_ytPlayer g) (g_fallbackAudio g) v).

Definition set_restartTimeout (v : list Restart) : Cmd :=
  upd_env (fun e => mkEnv (env_localStorage e) (env_announced e) v (env_mounted e)).

(** A method call on [ytPlayer] / on [fallbackAudio] when the object is
    there ([ytPlayer?.m()], or a call under a null guard). *)
Definition on_ytPlayer (f : Player -> Player) : Cmd :=
  fun w => set_ytPlayer (f <$> ytPlayer w) w.
Definition on_fallbackAudio (f : HTMLAudioElement -> HTMLAudioElement) : Cmd :=
  fun w => set_fallbackAudio (f <$> fallbackAudio w) w.

(** [if (fallbackTimeoutRef.current) clearTimeout(fallbackTimeoutRef.current)] *)
Definition clearFallbackTimeout : Cmd := set_fallbackTimeoutRef None.

(** ** Helper functions of the module *)

Definition steps : Z := 10.
Definition stepDuration : Q := 12.

(** [smoothSetVolume(targetVolume)], called at time [now]. *)
Definition smoothSetVolume (now : Q) (targetVolume : Z) : Cmd := fun w =>
  match ytPlayer w with
  | None => w
  | Some p =>
      (* a running interval is cleared; the handle is overwritten below *)
      let from := yt_volume p in
      let step := ((inject_Z targetVolume - inject_Z from) / inject_Z steps)%Q in
      set_smoothVolumeInterval
        (Some (mkSmoothing (now + stepDuration)%Q from step 0)) w
  end.

(** The callback given to [setInterval] in [smoothSetVolume], for the
    pending interval [sm]; an interval that is not cleared is due again
    [stepDuration] later. *)
Definition smoothVolumeCallback (sm : Smoothing) : Cmd :=
  let i := sm_i sm + 1 in
  let newVol := JS.round (inject_Z (sm_from sm) + sm_step sm * inject_Z i)%Q in
  on_ytPlayer (yt_setVolume newVol) >>
  (if steps <=? i
   then set_smoothVolumeInterval None
   else set_smoothVolumeInterval
          (Some (mkSmoothing (sm_due sm + stepDuration)%Q (sm_from sm) (sm_step sm) i))).

(** ** Music control logic *)

(** The callback of the watchdog armed by [playMusic]. *)
Definition fallbackTimeoutCallback (wd : Watchdog) : Cmd := fun w =>
  match ytPlayer w with
  | Some p =>
      if decide (yt_state p <> PLAYING) then
        (setShowYoutubeError true >>
         setUseFallback true >>
         on_ytPlayer (yt_request StopVideo) >>
         on_fallbackAudio (fun a =>
           au_request AudioPlay
             (au_setMuted (wd_isMuted wd)
               (au_setVolume (inject_Z (wd_volume wd) / 100)%Q a)))) w
      else w
  | None => w
  end.

Definition playMusic (r : Render) (now : Q) : Cmd := fun w =>
  if r_useFallback r then
    on_fallbackAudio (au_request AudioPlay) w
  else
    match ytPlayer w with
    | Some _ =>
        (on_ytPlayer (yt_request PlayVideo) >>
         clearFallbackTimeout >>
         set_fallbackTimeoutRef
           (Some (mkWatchdog (now + 3000)%Q (r_volume r) (r_isMuted r)))) w
    | None => w
    end.

Definition pauseMusic (r : Render) : Cmd :=
  clearFallbackTimeout >>
  (if r_useFallback r
   then on_fallbackAudio (au_request AudioPause)
   else on_ytPlayer (yt_request PauseVideo)).

Definition stopMusic (r : Render) : Cmd :=
  clearFallbackTimeout >>
  (if r_useFallback r
   then on_fallbackAudio (fun a => au_setCurrentTime 0 (au_request AudioPause a))
   else on_ytPlayer (fun p => yt_request (SeekTo 0 true) (yt_request PauseVideo p))).

(** ** Timer state handlers *)

Definition handleStart (r : Render) (now : Q) : Cmd :=
  setRemainingTime (r_duration r) >>
  when (negb (r_isMuted r)) (playMusic r now) >>
  setAppState Active >>
  set_startTimeRef now >>
  set_pauseTimeRef 0 >>
  set_lastPhaseRef None.

Definition handlePause (r : Render) (now : Q) : Cmd :=
  pauseMusic r >>
  setAppState Paused >>
  set_pauseTimeRef now.

Definition handleResume (r : Render) (now : Q) : Cmd :=
  when (negb (r_isMuted r)) (playMusic r now) >>
  (fun w =>
     let pauseDuration := (now - pauseTimeRef w)%Q in
     set_startTimeRef (startTimeRef w + pauseDuration)%Q w) >>
  setAppState Active.

Definition handleEnd (r : Render) : Cmd :=
  stopMusic r >>
  setAppState Idle.

Definition handleComplete (r : Render) : Cmd :=
  stopMusic r >>
  setAppState Complete >>
  setAriaAnnouncement "練習完成".

(** [setTimeout(handleStart, 100)] keeps the [handleStart] of the render
    that handled the click. *)
Definition handleRestart (r : Render) (now : Q) : Cmd :=
  setAppState Idle >>
  (fun w => set_restartTimeout (restartTimeout w ++ [mkRestart (now + 100)%Q r]) w).

(** ** Timer tick logic *)

(** The [for (const p of Object.keys(PHASES))] loop of [tick] over the
    remaining keys, with the loop variables [cumulativeDuration] and [phase];
    the result is the value of [phase] after the loop. *)
Fixpoint phaseLoop (keys : list BreathingPhase) (elapsedInCycle : Q)
    (cumulativeDuration : Z) (phase : BreathingPhase) : BreathingPhase :=
  match keys with
  | [] => phase
  | p :: rest =>
      let cumulativeDuration := cumulativeDuration + pc_duration (PHASES_at p) in
      if JS.ltb elapsedInCycle (inject_Z cumulativeDuration)
      then p (* [phase = p; break] *)
      else phaseLoop rest elapsedInCycle cumulativeDuration phase
  end.

(** The first two locals of [tick]. *)
Definition elapsedAt (timestamp : Q) (w : World) : Q :=
  (timestamp - startTimeRef w)%Q.
Definition newRemainingTimeAt (r : Render) (timestamp : Q) (w : World) : Q :=
  JS.max 0 (inject_Z (r_duration r * 1000) - elapsedAt timestamp w)%Q.

(** The phase [tick] computes, from the initial value of [phase]. *)
Definition phaseFrom (init : BreathingPhase) (elapsed : Q) : BreathingPhase :=
  let elapsedInCycle := JS.rem elapsed (inject_Z CYCLE_DURATION) in
  phaseLoop (Object_keys PHASES) elapsedInCycle 0 init.

Definition phaseAt (elapsed : Q) : BreathingPhase := phaseFrom HoldOut elapsed.

(** The value [cumulativeDuration] has gained after the loop went through
    [keys]. *)
Definition cumulated (keys : list BreathingPhase) : Z :=
  foldr (fun p sum => pc_duration (PHASES_at p) + sum) 0 keys.

Definition tick (r : Render) (timestamp : Q) : Cmd := fun w =>
  let elapsed := elapsedAt timestamp w in
  let newRemainingTime := newRemainingTimeAt r timestamp w in
  let w := setRemainingTime (JS.ceil (newRemainingTime / 1000)%Q) w in
  if Qle_bool newRemainingTime 0 then
    handleComplete r w
  else
    let phase := phaseAt elapsed in
    let w := setCurrentPhase phase w in
    if decide (Some phase <> lastPhaseRef w) then
      (setAriaAnnouncement (pc_announcement (PHASES_at phase)) >>
       set_lastPhaseRef (Some phase)) w
    else w.

(** ** Effects: player initialisation, keyboard, page visibility *)

(** The mount effect: [if (audioRef.current && !fallbackAudio) fallbackAudio
    = audioRef.current] for the [<audio>] element [audio] of the page. *)
Definition mountEffect (audio : HTMLAudioElement) : Cmd := fun w =>
  match fallbackAudio w with
  | None => set_fallbackAudio (Some audio) w
  | Some _ => w
  end.

(** [initPlayer]: [fresh] is the object [new YT.Player(...)] returns. *)
Definition initPlayer (fresh : Player) : Cmd := fun w =>
  match ytPlayer w with
  | Some _ => w
  | None => set_ytPlayer (Some fresh) w
  end.

(** [events.onReady], a closure of the mount effect. *)
Definition onReady : Cmd := fun w =>
  let r := mounted w in
  (on_ytPlayer (yt_setVolume (r_volume r)) >>
   on_ytPlayer (yt_setMuted (r_isMuted r))) w.

(** [events.onStateChange] for [event.data = data]. *)
Definition onStateChange (data : PlayerState) : Cmd :=
  when (bool_decide (data = PLAYING)) clearFallbackTimeout.

Definition handleKeyDown (r : Render) (now : Q) (key : string) : Cmd :=
  if bool_decide (r_appState r = Idle) && bool_decide (key = "Enter")
  then handleStart r now
  else if bool_decide (r_appState r = Active) && bool_decide (key = " ")
  then handlePause r now
  else if bool_decide (r_appState r = Paused) && bool_decide (key = " ")
  then handleResume r now
  else if (bool_decide (r_appState r = Active) || bool_decide (r_appState r = Paused))
          && bool_decide (key = "Escape")
  then handleEnd r
  else skip.

(** [handleVisibilityChange], with the value of [document.hidden]. *)
Definition handleVisibilityChange (r : Render) (now : Q) (hidden : bool) : Cmd :=
  when (hidden && bool_decide (r_appState r = Active)) (handlePause r now).

(** ** Music control handlers *)

Definition handleMuteToggle (r : Render) (now : Q) : Cmd :=
  let newMutedState := negb (r_isMuted r) in
  setIsMuted newMutedState >>
  (if r_useFallback r
   then on_fallbackAudio (au_setMuted newMutedState)
   else on_ytPlayer (yt_setMuted newMutedState)) >>
  when (negb newMutedState &&
        (bool_decide (r_appState r = Active) || bool_decide (r_appState r = Paused)))
       (playMusic r now) >>
  when newMutedState (pauseMusic r).

(** [handleVolumeChange], with [newVolume = parseInt(e.target.value, 10)];
    the value of a range input always parses to an integer. *)
Definition handleVolumeChange (r : Render) (now : Q) (newVolume : Z) : Cmd :=
  setVolume newVolume >>
  (fun w =>
     if r_useFallback r then
       match fallbackAudio w with
       | Some a =>
           let a := au_setVolume (inject_Z newVolume / 100)%Q a in
           let newMutedState := newVolume =? 0 in
           if decide (au_muted a <> newMutedState) then
             (set_fallbackAudio (Some (au_setMuted newMutedState a)) >>
              setIsMuted newMutedState) w
           else set_fallbackAudio (Some a) w
       | None => w
       end
     else
       match ytPlayer w with
       | Some p =>
           if decide (yt_state p <> UNSTARTED) then
             let w := smoothSetVolume now newVolume w in
             let currentlyMuted := yt_muted p in
             if (0 <? newVolume) && currentlyMuted then
               (on_ytPlayer (yt_setMuted false) >> setIsMuted false) w
             else if (newVolume =? 0) && negb currentlyMuted then
               (on_ytPlayer (yt_setMuted true) >> setIsMuted true) w
             else w
           else w
       | None => w
       end).

(** ** The event loop *)

(** What can run a piece of the component: the user, the browser, the
    YouTube player and the timers the component armed. *)
Inductive Event :=
| KeyDown (key : string)
| ClickStart
| ClickDuration (d : Z)
| ClickPause
| ClickResume
| ClickEnd
| ClickRestart
| ClickMute
| VolumeInput (value : Z)
| VisibilityChange (hidden : bool)
| AnimationFrame (timestamp : Q)
| MountEffect (audio : HTMLAudioElement)
| InitPlayer (fresh : Player)
| PlayerReady
| PlayerStateChange (data : PlayerState)
| FallbackTimeout
| RestartTimeout
| SmoothVolumeTick.

(** One event handled at time [now].  A button acts only in the view that
    renders it ([renderContent]); a frame callback runs only while the
    session is [Active] (the effect cancels it otherwise); a timer callback
    runs only when the timer is pending and due. *)
Definition step (now : Q) (e : Event) (w : World) : World :=
  let r := render w in
  match e with
  | KeyDown key => handleKeyDown r now key w
  | ClickStart =>
      when (bool_decide (appState w = Idle)) (handleStart r now) w
  | ClickDuration d =>
      when (bool_decide (appState w = Idle) && bool_decide (d ∈ DURATION_OPTIONS))
           (setDuration d) w
  | ClickPause =>
      when (bool_decide (appState w = Active)) (handlePause r now) w
  | ClickResume =>
      when (bool_decide (appState w = Paused)) (handleResume r now) w
  | ClickEnd =>
      when (negb (bool_decide (appState w = Idle))) (handleEnd r) w
  | ClickRestart =>
      when (bool_decide (appState w = Complete)) (handleRestart r now) w
  | ClickMute => handleMuteToggle r now w
  | VolumeInput value => handleVolumeChange r now value w
  | VisibilityChange hidden => handleVisibilityChange r now hidden w
  | AnimationFrame timestamp =>
      when (bool_decide (appState w = Active)) (tick r timestamp) w
  | MountEffect audio => mountEffect audio w
  | InitPlayer fresh => initPlayer fresh w
  | PlayerReady => onReady w
  | PlayerStateChange data =>
      match ytPlayer w with
      | Some _ => (on_ytPlayer (yt_report data) >> onStateChange data) w
      | None => w
      end
  | FallbackTimeout =>
      match fallbackTimeoutRef w with
      | Some wd =>
          if Qle_bool (wd_due wd) now
          then (set_fallbackTimeoutRef None >> fallbackTimeoutCallback wd) w
          else w
      | None => w
      end
  | RestartTimeout =>
      match restartTimeout w with
      | rs :: rest =>
          if Qle_bool (rs_due rs) now
          then (set_restartTimeout rest >> handleStart (rs_closure rs) now) w
          else w
      | [] => w
      end
  | SmoothVolumeTick =>
      match smoothVolumeInterval w with
      | Some sm =>
          if Qle_bool (sm_due sm) now then smoothVolumeCallback sm w else w
      | None => w
      end
  end.

(** A run: timed events handled in order. *)
Fixpoint run (trace : list (Q * Event)) (w : World) : World :=
  match trace with
  | [] => w
  | (now, e) :: rest => run rest (step now e w)
  end.

(** The smoothing interval firing [k] times in a row after time [t], each
    time [stepDuration] after the previous one. *)
Fixpoint smoothTicks (k : nat) (t : Q) (w : World) : World :=
  match k with
  | O => w
  | S k' =>
      let t' := (t + stepDuration)%Q in
      smoothTicks k' t' (step t' SmoothVolumeTick w)
  end.

(** A command keeps the playback mode on the backup backend. *)
Definition keepsFallback (c : Cmd) : Prop :=
  forall w, useFallback w = true -> useFallback (c w) = true.

(** ** Initial state and sample sessions *)

(** The state after the first render, for the given persisted preferences:
    the initial values of the [useState], [usePersistentState] and [useRef]
    calls and of the module-level variables. *)
Definition initialWorld (storedDuration : Z) (storedMuted : bool) (storedVolume : Z)
  : World :=
  mkWorld
    (mkReactState Idle storedDuration HoldOut "" false false
       storedDuration storedMuted storedVolume)
    (mkRefs None 0%Q 0%Q None)
    (mkGlobals None None None)
    (mkEnv ∅ [] [] (mkRender Idle storedDuration storedMuted storedVolume false)).

(** A first visit: nothing stored, every preference at its default. *)
Definition firstVisit : World := initialWorld DEFAULT_DURATION true 40.

(** The [<audio>] element of the page and a player as the YouTube API
    creates it. *)
Definition pageAudio : HTMLAudioElement := mkAudio 1%Q false 0%Q [].
Definition newPlayer : Player := mkPlayer UNSTARTED 100 false [].

(** The page is loaded and both backends are there. *)
Definition loaded (w : World) : World :=
  run [ (0%Q, MountEffect pageAudio);
        (300%Q, InitPlayer newPlayer);
        (900%Q, PlayerReady) ] w.

(** A muted session started at 1000 ms. *)
Definition mutedSession : World :=
  run [ (1000%Q, ClickStart) ] (loaded firstVisit).

(** A session with music: the user unmutes, then starts at 2000 ms. *)
Definition unmutedSession : World :=
  run [ (1500%Q, ClickMute); (2000%Q, ClickStart) ] (loaded firstVisit).

(** ** More of the module: time display, repeated pauses, backup mode *)

(** [s.padStart(targetLength, c)] for a one-character pad string. *)
Fixpoint repeatChar (n : nat) (c : Ascii.ascii) : string :=
  match n with
  | O => ""
  | S n' => String c (repeatChar n' c)
  end.

Definition padStart (targetLength : nat) (c : Ascii.ascii) (s : string) : string :=
  repeatChar (targetLength - String.length s) c +:+ s.

(** [formatTime(seconds)] for an integral number of seconds, which is what
    the component passes ([remainingTime] and [duration]).  [Math.floor] of
    the quotient is the floor division, [%] the remainder with the sign of
    the dividend, [toString()] the decimal notation. *)
Definition formatTime (seconds : Z) : string :=
  let mins := padStart 2 "0"%char (pretty (seconds / 60)) in
  let secs := padStart 2 "0"%char (pretty (Z.rem seconds 60)) in
  mins +:+ ":" +:+ secs.

Definition totalPaused (pauses : list (Q * Q)) : Q :=
  foldr (fun p sum => (snd p + sum)%Q) 0%Q pauses.

(** The widget has settled on the backup backend: fallback mode is on, no
    watchdog is pending, and every pending restart timer was armed by a
    render that already was in fallback mode. *)
Definition onBackup (w : World) : Prop :=
  useFallback w = true /\
  fallbackTimeoutRef w = None /\
  Forall (fun rs => r_useFallback (rs_closure rs) = true) (restartTimeout w).

(** The playback requests the YouTube player has received so far. *)
Definition playerCalls (w : World) : option (list PlayerCall) :=
  yt_calls <$> ytPlayer w.

(** The playback requests the audio element has received so far. *)
Definition audioCalls (w : World) : option (list AudioCall) :=
  au_calls <$> fallbackAudio w.

(** A command leaves an observation of the world as it is. *)
Definition preserves {A : Type} (obs : World -> A) (c : Cmd) : Prop :=
  forall w, obs (c w) = obs w.

(** Settled on the backup backend, the YouTube player having received the
    requests [calls] so far. *)
Definition settled (calls : list PlayerCall) (w : World) : Prop :=
  onBackup w /\ playerCalls w = Some calls.

Definition keepsSettled (c : Cmd) : Prop :=
  forall calls w, settled calls w -> settled calls (c w).

(** ** Binary64 arithmetic of the timer *)

(** The numbers of the source are binary64 values: every arithmetic result
    is the exact result rounded to 53 significant bits, to nearest, ties to
    even.  [Binary64.round] is that rounding on rationals.  The exponent range
    of binary64 is not modelled: timestamps in milliseconds stay far inside
    it. *)
Module Binary64.

(** [2 ^ k] for an integer [k]. *)
Definition pow2 (k : Z) : Q := Qpower 2 k.

(** Nearest integer, ties to the even one. *)
Definition rne (q : Q) : Z :=
  let f := Qfloor q in
  match Qcompare (q - inject_Z f) (1 # 2) with
  | Lt => f
  | Gt => f + 1
  | Eq => if Z.even f then f else f + 1
  end.

(** [floor (log2 a)] for [a > 0]. *)
Definition binade (a : Q) : Z :=
  let k := Z.log2 (Qnum a) - Z.log2 (Zpos (Qden a)) in
  if Qle_bool (pow2 k) a then k else k - 1.

Definition precision : Z := 53.

(** A positive number rounded to [precision] significant bits. *)
Definition round_pos (a : Q) : Q :=
  let ulp := pow2 (binade a - (precision - 1)) in
  (inject_Z (rne (a / ulp)) * ulp)%Q.

Definition round (x : Q) : Q :=
  let y := Qred x in
  match Qnum y with
  | Z0 => 0%Q
  | Zpos _ => round_pos y
  | Zneg _ => (- round_pos (- y))%Q
  end.

End Binary64.

(** The timer arithmetic with every result rounded as the code's numbers
    are: the subtraction and the addition of [handleResume], the subtraction,
    the product and the quotient of [tick].  [%], [Math.max], [Math.ceil] and
    the comparisons are exact on binary64 values.  Module [Rounded] repeats
    [handleResume] and [tick] with these roundings; the handlers that do no
    arithmetic are the ones above. *)
Module Rounded.

Definition handleResume (r : Render) (now : Q) : Cmd :=
  when (negb (r_isMuted r)) (playMusic r now) >>
  (fun w =>
     let pauseDuration := Binary64.round (now - pauseTimeRef w) in
     set_startTimeRef (Binary64.round (startTimeRef w + pauseDuration)) w) >>
  setAppState Active.

Definition elapsedAt (timestamp : Q) (w : World) : Q :=
  Binary64.round (timestamp - startTimeRef w).

Definition newRemainingTimeAt (r : Render) (timestamp : Q) (w : World) : Q :=
  JS.max 0
    (Binary64.round
       (Binary64.round (inject_Z (r_duration r) * 1000) - elapsedAt timestamp w)).

Definition tick (r : Render) (timestamp : Q) : Cmd := fun w =>
  let elapsed := elapsedAt timestamp w in
  let newRemainingTime := newRemainingTimeAt r timestamp w in
  let w := setRemainingTime (JS.ceil (Binary64.round (newRemainingTime / 1000))) w in
  if Qle_bool newRemainingTime 0 then
    handleComplete r w
  else
    let phase := phaseAt elapsed in
    let w := setCurrentPhase phase w in
    if decide (Some phase <> lastPhaseRef w) then
      (setAriaAnnouncement (pc_announcement (PHASES_at phase)) >>
       set_lastPhaseRef (Some phase)) w
    else w.

Definition handleKeyDown (r : Render) (now : Q) (key : string) : Cmd :=
  if bool_decide (r_appState r = Idle) && bool_decide (key = "Enter")
  then handleStart r now
  else if bool_decide (r_appState r = Active) && bool_decide (key = " ")
  then handlePause r now
  else if bool_decide (r_appState r = Paused) && bool_decide (key = " ")
  then handleResume r now
  else if (bool_decide (r_appState r = Active) || bool_decide (r_appState r = Paused))
          && bool_decide (key = "Escape")
  then handleEnd r
  else skip.

(** One event handled at time [now], the events that reach [handleResume]
    or [tick] with the rounded arithmetic, every other event as in [step]. *)
Definition step (now : Q) (e : Event) (w : World) : World :=
  let r := render w in
  match e with
  | KeyDown key => handleKeyDown r now key w
  | ClickResume =>
      when (bool_decide (appState w = Paused)) (handleResume r now) w
  | AnimationFrame timestamp =>
      when (bool_decide (appState w = Active)) (tick r timestamp) w
  | _ => step now e w
  end.

Fixpoint run (trace : list (Q * Event)) (w : World) : World :=
  match trace with
  | [] => w
  | (now, e) :: rest => run rest (step now e w)
  end.

End Rounded.

(** A session paused and resumed several times: each pair is the timestamp
    of a Pause click and the interval until the Resume click. *)
Fixpoint pauseResumeAll (pauses : list (Q * Q)) (w : World) : World :=
  match pauses with
  | [] => w
  | (pausedAt, interval) :: rest =>
      pauseResumeAll rest
        (Rounded.step (pausedAt + interval)%Q ClickResume
           (Rounded.step pausedAt ClickPause w))
  end.

(** A session started, without music, at the binary64 value of 9804.9 ms. *)
Definition fractionalSession : World :=
  handleStart (render (loaded firstVisit)) (Binary64.round (98049 # 10))
    (loaded firstVisit).

(** That session paused at the binary64 value of 65804.9 ms and resumed at
    the binary64 value of 121635.2 ms. *)
Definition fractionalPause : Q := Binary64.round (658049 # 10).
Definition fractionalResume : Q := Binary64.round (1216352 # 10).
Definition fractionalResumed : World :=
  Rounded.run [ (fractionalPause, ClickPause); (fractionalResume, ClickResume) ]
    fractionalSession.

(** A session started, without music, at the binary64 value of 1000.2 ms. *)
Definition tenthsSession : World :=
  handleStart (render (loaded firstVisit)) (Binary64.round (10002 # 10))
    (loaded firstVisit).

(** Pauses given in whole milliseconds: timestamp of the Pause and interval
    until the Resume. *)
Definition wholeMilliseconds (pauses : list (Z * Z)) : list (Q * Q) :=
  map (fun p => (inject_Z (fst p), inject_Z (snd p))) pauses.

Definition totalMilliseconds (pauses : list (Z * Z)) : Z :=
  foldr (fun p sum => snd p + sum)%Z 0%Z pauses.

(** A muted session started at 1000 ms on a page where the YouTube API has
    not loaded: the audio element is there, the player is not. *)
Definition unloadedSession : World :=
  run [ (0%Q, MountEffect pageAudio); (1000%Q, ClickStart) ] firstVisit.

(** * Properties *)

(** ** Exact arithmetic of the number operations *)

Section Numbers.

Local Open Scope Q_scope.

Lemma ltb_spec (a b : Q) : JS.ltb a b = true <-> a < b.
Proof.
  unfold JS.ltb. rewrite negb_true_iff.
  destruct (Qle_bool b a) eqn:E.
  - apply Qle_bool_iff in E. split; [discriminate | intros H; lra].
  - split; [intros _ | reflexivity].
    apply Qnot_le_lt. intros H. apply Qle_bool_iff in H. congruence.
Qed.

Lemma ltb_false (a b : Q) : JS.ltb a b = false <-> b <= a.
Proof.
  unfold JS.ltb. rewrite negb_false_iff. apply Qle_bool_iff.
Qed.

Lemma ltb_comp (a a' b b' : Q) : a == a' -> b == b' -> JS.ltb a b = JS.ltb a' b'.
Proof. intros Ha Hb. unfold JS.ltb. now rewrite Ha, Hb. Qed.

Lemma trunc_comp (x y : Q) : x == y -> JS.trunc x = JS.trunc y.
Proof.
  intros H. unfold JS.trunc. rewrite H.
  destruct (Qle_bool 0 y); [now apply Qfloor_comp | now apply Qceiling_comp].
Qed.

Lemma rem_comp (a a' b : Q) : a == a' -> JS.rem a b == JS.rem a' b.
Proof.
  intros H. unfold JS.rem.
  rewrite (trunc_comp (a / b) (a' / b)) by now rewrite H.
  now rewrite H.
Qed.

Lemma max_comp (a b b' : Q) : b == b' -> JS.max a b == JS.max a b'.
Proof.
  intros H. unfold JS.max. rewrite H. now destruct (Qle_bool a b').
Qed.

Lemma max0_le0 (x : Q) : Qle_bool (JS.max 0 x) 0 = Qle_bool x 0.
Proof.
  unfold JS.max. destruct (Qle_bool 0 x) eqn:E; [reflexivity|].
  symmetry. apply Qle_bool_iff.
  destruct (Qlt_le_dec x 0) as [H|H]; [lra|].
  apply Qle_bool_iff in H. congruence.
Qed.

(** [a % b] of a non-negative dividend lies in [[0, b)]. *)
Lemma rem_bounds (a b : Q) : 0 <= a -> 0 < b -> 0 <= JS.rem a b < b.
Proof.
  intros Ha Hb. unfold JS.rem, JS.trunc.
  assert (Hq : 0 <= a / b).
  { apply Qle_shift_div_l; [assumption | lra]. }
  apply Qle_bool_iff in Hq as Hq'. rewrite Hq'.
  pose proof (Qfloor_le (a / b)) as Hlo.
  pose proof (Qlt_floor (a / b)) as Hhi.
  rewrite inject_Z_plus in Hhi.
  set (k := inject_Z (Qfloor (a / b))) in *.
  assert (Hab : a == b * (a / b)) by (field; lra).
  set (q := a / b) in *.
  change (inject_Z 1) with 1 in Hhi.
  rewrite Hab. split; nra.
Qed.

Lemma round_inject_Z (z : Z) : JS.round (inject_Z z) = z.
Proof.
  unfold JS.round.
  pose proof (Qfloor_le (inject_Z z + (1 # 2))) as Hlo.
  pose proof (Qlt_floor (inject_Z z + (1 # 2))) as Hhi.
  set (k := Qfloor (inject_Z z + (1 # 2))) in *.
  rewrite inject_Z_plus in Hhi. change (inject_Z 1) with 1 in Hhi.
  assert (H1 : inject_Z k < inject_Z (z + 1)).
  { rewrite inject_Z_plus. change (inject_Z 1) with 1. lra. }
  assert (H2 : inject_Z z < inject_Z (k + 1)).
  { rewrite inject_Z_plus. change (inject_Z 1) with 1. lra. }
  rewrite <- Zlt_Qlt in H1, H2. lia.
Qed.

Lemma round_comp (x y : Q) : x == y -> JS.round x = JS.round y.
Proof. intros H. unfold JS.round. apply Qfloor_comp. now rewrite H. Qed.

End Numbers.

(** ** The phase table and the phase loop *)

Lemma PHASES_total (p : BreathingPhase) : is_Some (prop_get PHASES p).
Proof. destruct p; vm_compute; eauto. Qed.

Lemma CYCLE_DURATION_value : CYCLE_DURATION = 16000.
Proof. reflexivity. Qed.

Lemma CYCLE_DURATION_cumulated : CYCLE_DURATION = cumulated (Object_keys PHASES).
Proof. reflexivity. Qed.

Lemma durations_positive (p : BreathingPhase) : 0 < pc_duration (PHASES_at p).
Proof. destruct p; reflexivity. Qed.

Lemma cumulated_app (pre post : list BreathingPhase) :
  cumulated (pre ++ post) = cumulated pre + cumulated post.
Proof.
  induction pre as [|p pre IH]; simpl; [reflexivity|].
  fold (cumulated (pre ++ post)) (cumulated pre). lia.
Qed.

Lemma phaseLoop_comp (keys : list BreathingPhase) (e e' : Q) cum init :
  (e == e')%Q -> phaseLoop keys e cum init = phaseLoop keys e' cum init.
Proof.
  intros He. revert cum.
  induction keys as [|p keys IH]; intros cum; simpl; [reflexivity|].
  rewrite (ltb_comp e e' _ _ He (Qeq_refl _)).
  destruct (JS.ltb e' _); [reflexivity | apply IH].
Qed.

Lemma phaseFrom_comp (init : BreathingPhase) (e e' : Q) :
  (e == e')%Q -> phaseFrom init e = phaseFrom init e'.
Proof.
  intros He. unfold phaseFrom. apply phaseLoop_comp. now apply rem_comp.
Qed.

(** The loop stops at the key whose window holds [e], whatever [phase] was
    initialised with, as soon as [e] lies between the running total and the
    total the keys still add. *)
Lemma phaseLoop_window (keys : list BreathingPhase) (e : Q) (cum : Z) init :
  (inject_Z cum <= e)%Q ->
  (e < inject_Z (cum + cumulated keys))%Q ->
  exists pre p post,
    keys = pre ++ p :: post /\
    phaseLoop keys e cum init = p /\
    (inject_Z (cum + cumulated pre) <= e)%Q /\
    (e < inject_Z (cum + cumulated pre + pc_duration (PHASES_at p)))%Q.
Proof.
  revert cum.
  induction keys as [|k keys IH]; intros cum Hlo Hhi.
  - simpl in Hhi. rewrite Z.add_0_r in Hhi. lra.
  - simpl. destruct (JS.ltb e (inject_Z (cum + pc_duration (PHASES_at k)))) eqn:E.
    + exists [], k, keys. simpl. rewrite Z.add_0_r.
      apply ltb_spec in E. auto.
    + apply ltb_false in E.
      destruct (IH (cum + pc_duration (PHASES_at k)) E) as (pre & p & post & -> & Hp & H1 & H2).
      { simpl in Hhi. fold (cumulated keys) in Hhi. now rewrite <- Z.add_assoc. }
      exists (k :: pre), p, post. simpl. fold (cumulated pre).
      rewrite !Z.add_assoc. auto.
Qed.

Lemma phaseLoop_init (keys : list BreathingPhase) (e : Q) (cum : Z) init init' :
  (inject_Z cum <= e)%Q ->
  (e < inject_Z (cum + cumulated keys))%Q ->
  phaseLoop keys e cum init = phaseLoop keys e cum init'.
Proof.
  revert cum.
  induction keys as [|k keys IH]; intros cum Hlo Hhi.
  - simpl in Hhi. rewrite Z.add_0_r in Hhi. lra.
  - simpl. destruct (JS.ltb e (inject_Z (cum + pc_duration (PHASES_at k)))) eqn:E;
      [reflexivity|].
    apply ltb_false in E. apply IH; [exact E|].
    simpl in Hhi. fold (cumulated keys) in Hhi. now rewrite <- Z.add_assoc.
Qed.

(** ** The tick *)

Lemma step_frame (now ts : Q) (w : World) :
  appState w = Active -> step now (AnimationFrame ts) w = tick (render w) ts w.
Proof. intros H. unfold step. rewrite H. reflexivity. Qed.

Lemma elapsedAt_offset (e : Q) (w : World) :
  (elapsedAt (startTimeRef w + e) w == e)%Q.
Proof. unfold elapsedAt. ring. Qed.

Lemma newRemainingTimeAt_comp r ts ts' w w' :
  (elapsedAt ts w == elapsedAt ts' w')%Q ->
  (newRemainingTimeAt r ts w == newRemainingTimeAt r ts' w')%Q.
Proof.
  intros H. unfold newRemainingTimeAt. apply max_comp. now rewrite H.
Qed.

(** Whether the tick completes the session is decided by the sign of
    [duration * 1000 - elapsed]. *)
Lemma completes_iff r ts w :
  Qle_bool (newRemainingTimeAt r ts w) 0
  = Qle_bool (inject_Z (r_duration r * 1000) - elapsedAt ts w)%Q 0.
Proof. unfold newRemainingTimeAt. apply max0_le0. Qed.

Lemma appState_stopMusic r w : appState (stopMusic r w) = appState w.
Proof. unfold stopMusic. destruct (r_useFallback r); reflexivity. Qed.

Lemma currentPhase_stopMusic r w : currentPhase (stopMusic r w) = currentPhase w.
Proof. unfold stopMusic. destruct (r_useFallback r); reflexivity. Qed.

Lemma tick_completes r ts w :
  Qle_bool (newRemainingTimeAt r ts w) 0 = true ->
  appState (tick r ts w) = Complete /\
  currentPhase (tick r ts w) = currentPhase w /\
  lastPhaseRef (tick r ts w) = lastPhaseRef w.
Proof.
  intros H. unfold tick. rewrite H. unfold handleComplete, stopMusic.
  destruct (r_useFallback r); repeat split; reflexivity.
Qed.

Lemma tick_running r ts w :
  Qle_bool (newRemainingTimeAt r ts w) 0 = false ->
  appState (tick r ts w) = appState w /\
  currentPhase (tick r ts w) = phaseAt (elapsedAt ts w) /\
  lastPhaseRef (tick r ts w) = Some (phaseAt (elapsedAt ts w)).
Proof.
  intros H. unfold tick. rewrite H.
  destruct (decide _) as [Hne|Heq]; simpl; repeat split; try reflexivity.
  simpl in Heq. destruct (decide (Some (phaseAt (elapsedAt ts w)) = ref_lastPhase (refs w)))
    as [E|E]; [now symmetry | contradiction].
Qed.

(** C8. For every non-negative elapsed time, [elapsed % CYCLE_DURATION] is
    below the sum of the four phase durations, which are all positive and of
    which [CYCLE_DURATION] is the sum; hence the loop of [tick] leaves through
    its [break] at a key of the table, the one whose cumulative window holds
    the elapsed-in-cycle value, and the result does not depend on the value
    [phase] was initialised with. *)
Theorem phase_loop_always_assigns (elapsed : Q) :
  (0 <= elapsed)%Q ->
  let elapsedInCycle := JS.rem elapsed (inject_Z CYCLE_DURATION) in
  CYCLE_DURATION = cumulated [Inhale; HoldIn; Exhale; HoldOut] /\
  (forall p, 0 < pc_duration (PHASES_at p)) /\
  (0 <= elapsedInCycle < inject_Z CYCLE_DURATION)%Q /\
  (forall init, phaseFrom init elapsed = phaseAt elapsed) /\
  exists pre p post,
    Object_keys PHASES = pre ++ p :: post /\
    phaseAt elapsed = p /\
    (inject_Z (cumulated pre) <= elapsedInCycle
       < inject_Z (cumulated pre + pc_duration (PHASES_at p)))%Q.
Proof.
  intros Hpos elapsedInCycle.
  assert (Hb : (0 <= elapsedInCycle < inject_Z CYCLE_DURATION)%Q).
  { apply rem_bounds; [assumption | reflexivity]. }
  assert (Hw : forall init, exists pre p post,
    Object_keys PHASES = pre ++ p :: post /\
    phaseFrom init elapsed = p /\
    (inject_Z (0 + cumulated pre) <= elapsedInCycle)%Q /\
    (elapsedInCycle < inject_Z (0 + cumulated pre + pc_duration (PHASES_at p)))%Q).
  { intros init. apply phaseLoop_window; [apply Hb|].
    rewrite Z.add_0_l, <- CYCLE_DURATION_cumulated. apply Hb. }
  split; [reflexivity|]. split; [apply durations_positive|]. split; [exact Hb|].
  split.
  - intros init. unfold phaseAt, phaseFrom. apply phaseLoop_init; [apply Hb|].
    rewrite Z.add_0_l, <- CYCLE_DURATION_cumulated. apply Hb.
  - destruct (Hw HoldOut) as (pre & p & post & Hk & Hp & Hlo & Hhi).
    exists pre, p, post. rewrite Z.add_0_l in Hlo, Hhi. auto.
Qed.

Lemma phase_loop_always_assigns_witness :
  (0 <= 21500)%Q /\
  (JS.rem 21500 (inject_Z CYCLE_DURATION) < inject_Z CYCLE_DURATION)%Q /\
  phaseFrom Inhale 21500 = phaseAt 21500.
Proof.
  split; [discriminate|].
  pose proof (phase_loop_always_assigns 21500%Q ltac:(discriminate)) as H.
  split; apply H.
Defined.

(** C1. With a duration of 120 seconds and the default phase table, a frame
    whose timestamp lies 0 s, 4 s, 6 s, 12 s and 16 s after the start
    timestamp sets the phase to Inhale, HoldIn, Exhale, HoldOut and Inhale
    again, leaving the session Active; a frame 120 s after the start sets the
    session to Complete and computes no phase. *)
Theorem default_schedule_scenario (now : Q) (w : World) :
  appState w = Active ->
  duration w = 120 ->
  let frame (elapsed : Q) := step now (AnimationFrame (startTimeRef w + elapsed)%Q) w in
  (currentPhase (frame 0%Q) = Inhale /\ appState (frame 0%Q) = Active) /\
  (currentPhase (frame 4000%Q) = HoldIn /\ appState (frame 4000%Q) = Active) /\
  (currentPhase (frame 6000%Q) = Exhale /\ appState (frame 6000%Q) = Active) /\
  (currentPhase (frame 12000%Q) = HoldOut /\ appState (frame 12000%Q) = Active) /\
  (currentPhase (frame 16000%Q) = Inhale /\ appState (frame 16000%Q) = Active) /\
  (appState (frame 120000%Q) = Complete /\
   currentPhase (frame 120000%Q) = currentPhase w).
Proof.
  intros Hact Hdur frame.
  assert (Hrun : forall e ph,
    Qle_bool (120000 - e)%Q 0 = false -> phaseAt e = ph ->
    currentPhase (frame e) = ph /\ appState (frame e) = Active).
  { intros e ph Hrem Hph. unfold frame. rewrite step_frame by assumption.
    assert (Hgo : Qle_bool (newRemainingTimeAt (render w) (startTimeRef w + e) w) 0 = false).
    { rewrite completes_iff. unfold render at 1. cbn [r_duration]. rewrite Hdur.
      rewrite <- Hrem. apply Qleb_comp; [|reflexivity].
      rewrite (elapsedAt_offset e w). reflexivity. }
    destruct (tick_running _ _ _ Hgo) as (Ha & Hp & _).
    rewrite Ha, Hp. split; [|assumption].
    rewrite <- Hph. apply phaseFrom_comp, elapsedAt_offset. }
  do 5 (split; [apply Hrun; reflexivity|]).
  unfold frame. rewrite step_frame by assumption.
  assert (Hend : Qle_bool (newRemainingTimeAt (render w) (startTimeRef w + 120000) w) 0 = true).
  { rewrite completes_iff. unfold render at 1. cbn [r_duration]. rewrite Hdur.
    apply Qle_bool_iff. rewrite (elapsedAt_offset 120000 w). discriminate. }
  destruct (tick_completes _ _ _ Hend) as (Ha & Hp & _). now split.
Qed.

Lemma default_schedule_scenario_witness :
  appState mutedSession = Active /\ duration mutedSession = 120 /\
  currentPhase
    (step 5016%Q (AnimationFrame (startTimeRef mutedSession + 4000)%Q) mutedSession)
  = HoldIn.
Proof.
  split; [reflexivity|]. split; [reflexivity|].
  apply (default_schedule_scenario 5016%Q mutedSession); reflexivity.
Defined.

(** ** Pause and resume *)

Ltac unfold_music :=
  unfold playMusic, pauseMusic, stopMusic, clearFallbackTimeout,
    on_ytPlayer, on_fallbackAudio, when, andThen, skip in *.

Lemma playMusic_timing r now w :
  react (playMusic r now w) = react w /\
  startTimeRef (playMusic r now w) = startTimeRef w /\
  pauseTimeRef (playMusic r now w) = pauseTimeRef w /\
  lastPhaseRef (playMusic r now w) = lastPhaseRef w.
Proof.
  unfold_music. destruct (r_useFallback r); [repeat split; reflexivity|].
  simpl. destruct (g_ytPlayer (globals w)); repeat split; reflexivity.
Qed.

Lemma pauseMusic_timing r w :
  react (pauseMusic r w) = react w /\
  startTimeRef (pauseMusic r w) = startTimeRef w /\
  pauseTimeRef (pauseMusic r w) = pauseTimeRef w /\
  lastPhaseRef (pauseMusic r w) = lastPhaseRef w.
Proof.
  unfold_music. destruct (r_useFallback r); repeat split; reflexivity.
Qed.

Lemma handlePause_fields r now w :
  appState (handlePause r now w) = Paused /\
  duration (handlePause r now w) = duration w /\
  startTimeRef (handlePause r now w) = startTimeRef w /\
  pauseTimeRef (handlePause r now w) = now.
Proof.
  unfold handlePause, andThen.
  destruct (pauseMusic_timing r w) as (Hr & Hs & _).
  simpl in *. rewrite Hr, Hs. repeat split; reflexivity.
Qed.

Lemma handleResume_fields r now w :
  appState (handleResume r now w) = Active /\
  duration (handleResume r now w) = duration w /\
  startTimeRef (handleResume r now w)
    = (startTimeRef w + (now - pauseTimeRef w))%Q.
Proof.
  unfold handleResume, andThen, when.
  destruct (negb (r_isMuted r)); [|repeat split; reflexivity].
  destruct (playMusic_timing r now w) as (Hr & Hs & Hp & _).
  simpl in *. rewrite Hr, Hs, Hp. repeat split; reflexivity.
Qed.

Lemma remainingTime_tick r ts w :
  remainingTime (tick r ts w) = JS.ceil (newRemainingTimeAt r ts w / 1000)%Q.
Proof.
  unfold tick. destruct (Qle_bool _ 0).
  - unfold handleComplete, stopMusic, andThen. destruct (r_useFallback r); reflexivity.
  - destruct (decide _); reflexivity.
Qed.

(** The scenario of the specification: started at 1000 ms, paused 5 s
    later, resumed after 100 s: 115 s remain, not 15 s. *)
Example pause_scenario :
  remainingTime
    (run [ (6000%Q, ClickPause); (106000%Q, ClickResume);
           (106000%Q, AnimationFrame 106000%Q) ] mutedSession) = 115.
Proof. vm_compute. reflexivity. Qed.

(** ** Page visibility *)

Lemma step_hidden_active (now : Q) (w : World) :
  appState w = Active ->
  step now (VisibilityChange true) w = handlePause (render w) now w.
Proof.
  intros Hact. unfold step, handleVisibilityChange, render. cbn [r_appState].
  rewrite Hact. reflexivity.
Qed.

(** In no state is the session Active after the page became hidden. *)
Lemma hidden_page_never_active (now : Q) (w : World) :
  appState (step now (VisibilityChange true) w) <> Active.
Proof.
  destruct (decide (appState w = Active)) as [Hact|Hact].
  - rewrite step_hidden_active by assumption.
    destruct (handlePause_fields (render w) now w) as (H1 & _).
    rewrite H1. discriminate.
  - unfold step, handleVisibilityChange, render. cbn [r_appState andb].
    rewrite bool_decide_eq_false_2 by assumption. exact Hact.
Qed.

(** C7. When the page becomes hidden while the session is Active, the
    session becomes Paused: the pause timestamp is taken, the music is paused
    and the watchdog cleared; the session is not Active afterwards. *)
Theorem hidden_page_pauses (now : Q) (w : World) :
  appState w = Active ->
  let w' := step now (VisibilityChange true) w in
  appState w' = Paused /\
  pauseTimeRef w' = now /\
  fallbackTimeoutRef w' = None /\
  appState w' <> Active.
Proof.
  intros Hact w'. unfold w'. rewrite step_hidden_active by assumption.
  destruct (handlePause_fields (render w) now w) as (H1 & _ & _ & H4).
  repeat split; try assumption.
  - unfold handlePause, pauseMusic, andThen, clearFallbackTimeout,
      on_fallbackAudio, on_ytPlayer.
    destruct (r_useFallback (render w)); reflexivity.
  - rewrite H1. discriminate.
Qed.

Lemma hidden_page_pauses_witness :
  appState unmutedSession = Active /\
  appState (step 9000%Q (VisibilityChange true) unmutedSession) = Paused.
Proof.
  split; [reflexivity|].
  apply (hidden_page_pauses 9000%Q unmutedSession). reflexivity.
Defined.

(** ** The volume slider *)

Lemma step_volume (now : Q) (v : Z) (w : World) :
  step now (VolumeInput v) w = handleVolumeChange (render w) now v w.
Proof. reflexivity. Qed.

(** C10. With fallback mode off and the YouTube player either not created
    or reporting UNSTARTED, a volume-slider change does what [setVolume]
    does and nothing else: the volume cell and its stored value change;
    neither backend, the smoothing interval, the refs, the mute cell nor the
    stored mute preference do, whatever the new volume is. *)
Theorem volume_change_before_playback (now : Q) (v : Z) (w : World) :
  useFallback w = false ->
  (ytPlayer w = None \/ exists p, ytPlayer w = Some p /\ yt_state p = UNSTARTED) ->
  let w' := step now (VolumeInput v) w in
  w' = setVolume v w /\
  volume w' = v /\
  localStorage w' = <["bgmVolume" := JNum v]> (localStorage w) /\
  globals w' = globals w /\
  refs w' = refs w /\
  isMuted w' = isMuted w /\
  localStorage w' !! "isMuted" = localStorage w !! "isMuted".
Proof.
  intros Hfb Hyt w'.
  assert (Hw : w' = setVolume v w).
  { unfold w'. rewrite step_volume. unfold handleVolumeChange, andThen, render.
    cbn [r_useFallback]. rewrite Hfb.
    change (ytPlayer (setVolume v w)) with (ytPlayer w).
    destruct Hyt as [-> | (p & -> & Hst)]; [reflexivity|].
    destruct (decide (yt_state p <> UNSTARTED)); [contradiction | reflexivity]. }
  rewrite Hw. repeat split.
  simpl. now rewrite lookup_insert_ne.
Qed.

Lemma volume_change_before_playback_witness :
  useFallback mutedSession = false /\
  isMuted (step 3000%Q (VolumeInput 60) mutedSession) = isMuted mutedSession.
Proof.
  split; [reflexivity|].
  apply (volume_change_before_playback 3000%Q 60 mutedSession);
    [reflexivity | right; eexists; split; reflexivity].
Defined.

(** ** The mute button *)

Lemma step_mute (now : Q) (w : World) :
  step now ClickMute w = handleMuteToggle (render w) now w.
Proof. reflexivity. Qed.

(** On a page where the YouTube player was never created, unmuting during an
    Active session on the primary backend starts nothing: the mute cell
    flips, there is still no player, the audio element has received no
    request and no watchdog is armed. *)
Lemma unmute_without_player_starts_nothing :
  appState unloadedSession = Active /\
  isMuted unloadedSession = true /\
  useFallback unloadedSession = false /\
  isMuted (step 3000%Q ClickMute unloadedSession) = false /\
  playerCalls (step 3000%Q ClickMute unloadedSession) = None /\
  audioCalls (step 3000%Q ClickMute unloadedSession) = Some [] /\
  fallbackTimeoutRef (step 3000%Q ClickMute unloadedSession) = None.
Proof. vm_compute. repeat split; reflexivity. Qed.

(** C5, amended. Toggling mute while the session is Active or Paused flips
    the mute cell and, when the object of the backend in use exists, acts on
    its playback within the handler itself: going from unmuted to muted sends
    it a pause request, going from muted to unmuted sends it a play request,
    and its mute flag takes the new value.  When that object does not exist
    (no player on the primary backend, no audio element on the backup), the
    toggle reaches no backend: the missing object stays missing and the other
    backend's object is left as it was. *)
Theorem mute_toggle_changes_playback (now : Q) (w : World) :
  appState w = Active \/ appState w = Paused ->
  let w' := step now ClickMute w in
  isMuted w' = negb (isMuted w) /\
  (forall a, useFallback w = true -> fallbackAudio w = Some a ->
     exists a', fallbackAudio w' = Some a' /\
       au_muted a' = negb (isMuted w) /\
       au_calls a' = (if isMuted w then AudioPlay else AudioPause) :: au_calls a) /\
  (forall p, useFallback w = false -> ytPlayer w = Some p ->
     exists p', ytPlayer w' = Some p' /\
       yt_muted p' = negb (isMuted w) /\
       yt_calls p' = (if isMuted w then PlayVideo else PauseVideo) :: yt_calls p) /\
  (useFallback w = true -> fallbackAudio w = None ->
     fallbackAudio w' = None /\ ytPlayer w' = ytPlayer w) /\
  (useFallback w = false -> ytPlayer w = None ->
     ytPlayer w' = None /\ fallbackAudio w' = fallbackAudio w).
Proof.
  intros Hst w'. unfold w'. rewrite step_mute.
  unfold handleMuteToggle, render. cbn [r_isMuted r_useFallback r_appState].
  assert (Hview : bool_decide (appState w = Active) || bool_decide (appState w = Paused) = true).
  { destruct Hst as [-> | ->]; reflexivity. }
  rewrite Hview, negb_involutive, andb_true_r.
  unfold playMusic, pauseMusic. cbn [r_useFallback r_isMuted r_volume].
  unfold andThen, when, skip, clearFallbackTimeout, on_fallbackAudio, on_ytPlayer.
  split; [destruct (isMuted w), (useFallback w); simpl;
          try destruct (g_ytPlayer (globals w)); reflexivity|].
  split; [|split; [|split]].
  - intros a Hfb Ha. rewrite Hfb. simpl in Ha.
    destruct (isMuted w); simpl; rewrite Ha; simpl; eexists; repeat split.
  - intros p Hfb Hp. rewrite Hfb. simpl in Hp.
    destruct (isMuted w); simpl; rewrite Hp; simpl; eexists; repeat split.
  - intros Hfb Ha. rewrite Hfb. simpl in Ha.
    destruct (isMuted w); simpl; rewrite Ha; simpl; split; reflexivity.
  - intros Hfb Hp. rewrite Hfb. simpl in Hp.
    destruct (isMuted w); simpl; rewrite Hp; simpl; split; reflexivity.
Qed.

Lemma mute_toggle_changes_playback_witness :
  (appState unmutedSession = Active \/ appState unmutedSession = Paused) /\
  isMuted (step 7000%Q ClickMute unmutedSession) = negb (isMuted unmutedSession).
Proof.
  split; [left; reflexivity|].
  apply (mute_toggle_changes_playback 7000%Q unmutedSession). left. reflexivity.
Defined.

(** ** Volume smoothing *)

(** One firing of the smoothing interval. *)
Lemma smooth_tick (now : Q) (sm : Smoothing) (p : Player) (w : World) :
  smoothVolumeInterval w = Some sm ->
  ytPlayer w = Some p ->
  (sm_due sm <= now)%Q ->
  let i := sm_i sm + 1 in
  let w' := step now SmoothVolumeTick w in
  ytPlayer w' =
    Some (yt_setVolume (JS.round (inject_Z (sm_from sm) + sm_step sm * inject_Z i)%Q) p) /\
  smoothVolumeInterval w' =
    (if steps <=? i then None
     else Some (mkSmoothing (sm_due sm + stepDuration)%Q (sm_from sm) (sm_step sm) i)) /\
  fallbackAudio w' = fallbackAudio w.
Proof.
  intros Hsm Hp Hdue i w'. unfold w', step. rewrite Hsm.
  apply Qle_bool_iff in Hdue. rewrite Hdue.
  unfold smoothVolumeCallback, andThen, on_ytPlayer. rewrite Hp. fold i.
  destruct (steps <=? i); repeat split; reflexivity.
Qed.

(** [k] firings in a row, starting from a pending interval that has fired
    [sm_i sm] times: the player's volume follows the line from [sm_from]
    with slope [sm_step], rounded; the interval stays pending, due every
    [stepDuration], until it has fired [steps] times, and is then cleared. *)
Lemma smooth_ticks (k : nat) :
  forall (t : Q) (sm : Smoothing) (p : Player) (w : World),
  smoothVolumeInterval w = Some sm ->
  ytPlayer w = Some p ->
  (sm_due sm == t + stepDuration)%Q ->
  (1 <= k)%nat ->
  sm_i sm + Z.of_nat k <= steps ->
  let i := sm_i sm + Z.of_nat k in
  let wk := smoothTicks k t w in
  ytPlayer wk =
    Some (yt_setVolume (JS.round (inject_Z (sm_from sm) + sm_step sm * inject_Z i)%Q) p) /\
  (i < steps -> exists smk,
     smoothVolumeInterval wk = Some smk /\
     (sm_due smk == t + stepDuration * (inject_Z (Z.of_nat k) + 1))%Q /\
     sm_from smk = sm_from sm /\ sm_step smk = sm_step sm /\ sm_i smk = i) /\
  (i = steps -> smoothVolumeInterval wk = None).
Proof.
  induction k as [|k IH]; intros t sm p w Hsm Hp Hdue Hk Hi i wk; [lia|].
  assert (Hfire : (sm_due sm <= t + stepDuration)%Q) by (rewrite Hdue; lra).
  destruct (smooth_tick (t + stepDuration) sm p w Hsm Hp Hfire) as (Hp1 & Hsm1 & _).
  unfold wk. cbn [smoothTicks].
  set (w1 := step (t + stepDuration)%Q SmoothVolumeTick w) in *.
  destruct k as [|k].
  - (* the last of the firings asked for *)
    cbn [smoothTicks]. unfold i. change (Z.of_nat 1) with 1.
    split; [exact Hp1|]. split.
    + intros Hlt. rewrite Hsm1.
      destruct (Z.leb_spec steps (sm_i sm + 1)) as [Hge|_]; [lia|].
      eexists. split; [reflexivity|]. cbn [sm_due sm_from sm_step sm_i].
      repeat split; try reflexivity.
      rewrite Hdue. change (inject_Z 1) with 1%Q. ring.
    + intros Heq. rewrite Hsm1.
      destruct (Z.leb_spec steps (sm_i sm + 1)) as [_|Hlt]; [reflexivity | lia].
  - (* more firings follow: the interval is still pending *)
    destruct (Z.leb_spec steps (sm_i sm + 1)) as [Hge|Hlt]; [lia|].
    set (sm1 := mkSmoothing (sm_due sm + stepDuration)%Q (sm_from sm) (sm_step sm)
                  (sm_i sm + 1)) in *.
    assert (Hdue1 : (sm_due sm1 == (t + stepDuration) + stepDuration)%Q).
    { unfold sm1. cbn [sm_due]. now rewrite Hdue. }
    assert (Hi1 : sm_i sm1 + Z.of_nat (S k) <= steps) by (unfold sm1; cbn [sm_i]; lia).
    destruct (IH (t + stepDuration)%Q sm1 _ w1 Hsm1 Hp1 Hdue1 ltac:(lia) Hi1)
      as (Hpk & Hpend & Hdone).
    assert (Ei : sm_i sm1 + Z.of_nat (S k) = i) by (unfold sm1, i; cbn [sm_i]; lia).
    rewrite Ei in Hpk, Hpend, Hdone. cbn [sm_from sm_step sm1] in Hpk, Hpend.
    split; [rewrite Hpk; reflexivity|]. split; [|exact Hdone].
    intros Hlti. destruct (Hpend Hlti) as (smk & H1 & H2 & H3 & H4 & H5).
    exists smk. repeat split; try assumption.
    rewrite H2. rewrite (Nat2Z.inj_succ (S k)), <- Z.add_1_r, inject_Z_plus.
    change (inject_Z 1) with 1%Q. ring.
Qed.

(** What the slider handler leaves behind on the primary backend. *)
Lemma handleVolumeChange_primary (now : Q) (v : Z) (w : World) (p : Player) :
  useFallback w = false ->
  ytPlayer w = Some p ->
  yt_state p <> UNSTARTED ->
  let w1 := step now (VolumeInput v) w in
  let unmute := (0 <? v) && yt_muted p in
  let mute := (v =? 0) && negb (yt_muted p) in
  (exists p1, ytPlayer w1 = Some p1 /\ yt_volume p1 = yt_volume p /\
     yt_muted p1 = (if unmute then false else if mute then true else yt_muted p)) /\
  smoothVolumeInterval w1 =
    Some (mkSmoothing (now + stepDuration)%Q (yt_volume p)
            ((inject_Z v - inject_Z (yt_volume p)) / inject_Z steps)%Q 0) /\
  fallbackAudio w1 = fallbackAudio w /\
  isMuted w1 = (if unmute then false else if mute then true else isMuted w) /\
  localStorage w1 !! "isMuted" =
    (if unmute then Some (JBool false)
     else if mute then Some (JBool true) else localStorage w !! "isMuted").
Proof.
  intros Hfb Hp Hst w1 unmute mute. unfold w1. rewrite step_volume.
  unfold handleVolumeChange, andThen, render. cbn [r_useFallback]. rewrite Hfb.
  change (ytPlayer (setVolume v w)) with (ytPlayer w). rewrite Hp.
  destruct (decide (yt_state p <> UNSTARTED)); [|contradiction].
  unfold smoothSetVolume, on_ytPlayer.
  change (ytPlayer (setVolume v w)) with (ytPlayer w). rewrite Hp.
  fold unmute mute.
  destruct unmute; [|destruct mute]; cbn; cbn in Hp; rewrite ?Hp; cbn.
  - split; [eexists; split; [reflexivity|]; split; reflexivity|].
    repeat split. apply lookup_insert_eq.
  - split; [eexists; split; [reflexivity|]; split; reflexivity|].
    repeat split. apply lookup_insert_eq.
  - split; [eexists; split; [reflexivity|]; split; reflexivity|].
    repeat split. now rewrite lookup_insert_ne.
Qed.

(** On the primary backend, before the player has started playing: the
    slider is moved from 40 to 60, the player's volume stays at 40, no
    interval is armed, and firings of the smoothing interval change nothing. *)
Lemma volume_change_not_applied_before_playback :
  useFallback mutedSession = false /\
  yt_volume <$> ytPlayer mutedSession = Some 40 /\
  volume (step 3000%Q (VolumeInput 60) mutedSession) = 60 /\
  yt_volume <$> ytPlayer (step 3000%Q (VolumeInput 60) mutedSession) = Some 40 /\
  smoothVolumeInterval (step 3000%Q (VolumeInput 60) mutedSession) = None /\
  yt_volume <$> ytPlayer (smoothTicks 10 3000%Q (step 3000%Q (VolumeInput 60) mutedSession))
    = Some 40.
Proof. vm_compute. repeat split; reflexivity. Qed.

(** C6, amended. A volume change while the primary backend is active and its
    player is created and past UNSTARTED leaves the player's volume as it is
    and arms an interval of 12 ms; its k-th firing, 12 k ms later, sets the
    volume to the rounded point of the line from the volume read at the
    change to the target; the tenth firing sets the target itself and clears
    the interval.  A volume change while the backup backend is active assigns
    volume / 100 to the audio element at once and arms nothing. *)
Theorem volume_change_smoothing (now : Q) (v : Z) (w : World) :
  let w1 := step now (VolumeInput v) w in
  (forall p, useFallback w = false -> ytPlayer w = Some p -> yt_state p <> UNSTARTED ->
     let from := yt_volume p in
     let line (k : nat) :=
       JS.round (inject_Z from
                 + (inject_Z v - inject_Z from) / 10 * inject_Z (Z.of_nat k))%Q in
     (exists p1, ytPlayer w1 = Some p1 /\ yt_volume p1 = from) /\
     (exists sm, smoothVolumeInterval w1 = Some sm /\ sm_due sm = (now + 12)%Q) /\
     (forall t, (t < now + 12)%Q -> step t SmoothVolumeTick w1 = w1) /\
     (forall k, (1 <= k <= 10)%nat ->
        exists pk, ytPlayer (smoothTicks k now w1) = Some pk /\ yt_volume pk = line k) /\
     (forall k, (1 <= k < 10)%nat ->
        exists sm, smoothVolumeInterval (smoothTicks k now w1) = Some sm /\
          (sm_due sm == now + 12 * (inject_Z (Z.of_nat k) + 1))%Q) /\
     (exists p10, ytPlayer (smoothTicks 10 now w1) = Some p10 /\ yt_volume p10 = v) /\
     smoothVolumeInterval (smoothTicks 10 now w1) = None) /\
  (forall a, useFallback w = true -> fallbackAudio w = Some a ->
     exists a1, fallbackAudio w1 = Some a1 /\
       au_volume a1 = (inject_Z v / 100)%Q /\
       au_calls a1 = au_calls a /\
       smoothVolumeInterval w1 = smoothVolumeInterval w /\
       ytPlayer w1 = ytPlayer w).
Proof.
  intros w1. split.
  - intros p Hfb Hp Hst from line.
    destruct (handleVolumeChange_primary now v w p Hfb Hp Hst)
      as ((p1 & Hp1 & Hv1 & _) & Hsm1 & _).
    cbv zeta in Hp1, Hsm1. fold w1 in Hp1, Hsm1.
    set (sm := mkSmoothing (now + stepDuration)%Q (yt_volume p)
                 ((inject_Z v - inject_Z (yt_volume p)) / inject_Z steps)%Q 0) in *.
    assert (Hticks : forall k, (1 <= k <= 10)%nat ->
      ytPlayer (smoothTicks k now w1) = Some (yt_setVolume (line k) p1) /\
      (Z.of_nat k < steps -> exists smk,
         smoothVolumeInterval (smoothTicks k now w1) = Some smk /\
         (sm_due smk == now + stepDuration * (inject_Z (Z.of_nat k) + 1))%Q /\
         sm_from smk = sm_from sm /\ sm_step smk = sm_step sm /\
         sm_i smk = Z.of_nat k) /\
      (Z.of_nat k = steps -> smoothVolumeInterval (smoothTicks k now w1) = None)).
    { intros k Hk.
      apply (smooth_ticks k now sm p1 w1 Hsm1 Hp1); unfold sm, steps; cbn [sm_due sm_i];
        [reflexivity | lia | lia]. }
    split; [exists p1; split; assumption|].
    split; [exists sm; split; [assumption | reflexivity]|].
    split.
    { intros t Ht. unfold step. rewrite Hsm1. cbn [sm_due sm].
      destruct (Qle_bool (now + stepDuration) t) eqn:E; [|reflexivity].
      apply Qle_bool_iff in E. unfold stepDuration in E. lra. }
    split.
    { intros k Hk. destruct (Hticks k Hk) as (Hpk & _).
      eexists. split; [exact Hpk | reflexivity]. }
    split.
    { intros k Hk. destruct (Hticks k ltac:(lia)) as (_ & Hpend & _).
      destruct (Hpend ltac:(unfold steps; lia)) as (smk & H1 & H2 & _).
      exists smk. split; assumption. }
    destruct (Hticks 10%nat ltac:(lia)) as (Hp10 & _ & Hdone).
    split; [|apply Hdone; reflexivity].
    eexists. split; [exact Hp10|]. cbn [yt_volume yt_setVolume]. unfold line.
    rewrite <- (round_inject_Z v) at 2. apply round_comp.
    change (inject_Z (Z.of_nat 10)) with 10%Q. field.
  - intros a Hfb Ha. unfold w1. rewrite step_volume.
    unfold handleVolumeChange, andThen, render. cbn [r_useFallback]. rewrite Hfb.
    change (fallbackAudio (setVolume v w)) with (fallbackAudio w). rewrite Ha.
    destruct (decide _); eexists; repeat split.
Qed.

Lemma volume_change_smoothing_witness :
  exists p10,
    ytPlayer (smoothTicks 10 5000 (step 5000%Q (VolumeInput 73)
                (step 4000%Q (PlayerStateChange PLAYING) unmutedSession)))
      = Some p10 /\
    yt_volume p10 = 73.
Proof.
  eapply (proj1 (volume_change_smoothing 5000%Q 73
            (step 4000%Q (PlayerStateChange PLAYING) unmutedSession)));
    [reflexivity | reflexivity | discriminate].
Defined.

(** ** Volume and mute *)

(** The volume slider on a page where the player has not started playing:
    an unmuted user sets the volume to 0 and stays unmuted; a muted user
    raises the volume and stays muted; the stored mute preference is not
    written. *)
Lemma volume_change_may_leave_mute_alone :
  (isMuted (run [ (1500%Q, ClickMute); (1800%Q, VolumeInput 0) ] (loaded firstVisit))
     = false /\
   localStorage (run [ (1500%Q, ClickMute); (1800%Q, VolumeInput 0) ] (loaded firstVisit))
     !! "isMuted" = Some (JBool false)) /\
  (isMuted (step 3000%Q (VolumeInput 60) mutedSession) = true /\
   localStorage (step 3000%Q (VolumeInput 60) mutedSession) !! "isMuted" = None).
Proof. vm_compute. repeat split; reflexivity. Qed.

(** C4, amended. A volume change to [v >= 0] that reaches the backend in use
    (fallback mode with the audio element present, or the YouTube player
    created and past UNSTARTED) leaves that backend muted exactly when
    [v = 0].  When this changes the backend's mute flag, the new value is
    also written to the mute cell and to the stored mute preference; when the
    backend's flag already had that value, cell and stored preference are
    left as they were. *)
Theorem volume_mute_sync (now : Q) (v : Z) (w : World) :
  0 <= v ->
  let w' := step now (VolumeInput v) w in
  (forall a, useFallback w = true -> fallbackAudio w = Some a ->
     exists a', fallbackAudio w' = Some a' /\
       au_muted a' = (v =? 0) /\
       (au_muted a <> (v =? 0) ->
          isMuted w' = (v =? 0) /\
          localStorage w' !! "isMuted" = Some (JBool (v =? 0))) /\
       (au_muted a = (v =? 0) ->
          isMuted w' = isMuted w /\
          localStorage w' !! "isMuted" = localStorage w !! "isMuted")) /\
  (forall p, useFallback w = false -> ytPlayer w = Some p -> yt_state p <> UNSTARTED ->
     exists p', ytPlayer w' = Some p' /\
       yt_muted p' = (v =? 0) /\
       (yt_muted p <> (v =? 0) ->
          isMuted w' = (v =? 0) /\
          localStorage w' !! "isMuted" = Some (JBool (v =? 0))) /\
       (yt_muted p = (v =? 0) ->
          isMuted w' = isMuted w /\
          localStorage w' !! "isMuted" = localStorage w !! "isMuted")).
Proof.
  intros Hv w'. split.
  - intros a Hfb Ha. unfold w'. rewrite step_volume.
    unfold handleVolumeChange, andThen, render. cbn [r_useFallback]. rewrite Hfb.
    change (fallbackAudio (setVolume v w)) with (fallbackAudio w). rewrite Ha.
    cbn [au_muted au_setVolume].
    destruct (decide (au_muted a <> (v =? 0))) as [Hne|Heq].
    + eexists. split; [reflexivity|]. split; [reflexivity|]. split.
      * intros _. split; [reflexivity|]. simpl. apply lookup_insert_eq.
      * intros Heq. contradiction.
    + assert (Heq' : au_muted a = (v =? 0)).
      { destruct (au_muted a), (v =? 0); try reflexivity; exfalso; apply Heq; discriminate. }
      eexists. split; [reflexivity|]. split; [exact Heq'|]. split.
      * intros Hne. contradiction.
      * intros _. split; [reflexivity|]. simpl. now rewrite lookup_insert_ne.
  - intros p Hfb Hp Hst.
    destruct (handleVolumeChange_primary now v w p Hfb Hp Hst)
      as ((p' & Hp' & _ & Hm') & _ & _ & Hmu & Hst').
    cbv zeta in Hp', Hm', Hmu, Hst'. fold w' in Hp', Hmu, Hst'.
    exists p'. split; [exact Hp'|].
    rewrite Hm', Hmu, Hst'.
    destruct (Z.eqb_spec v 0) as [->|Hnz].
    + cbn [Z.ltb Z.compare andb]. destruct (yt_muted p); cbn [negb andb];
        repeat split; intros; try reflexivity; try contradiction; try discriminate.
    + assert (Hpos : (0 <? v) = true) by (apply Z.ltb_lt; lia).
      rewrite Hpos. cbn [andb]. destruct (yt_muted p);
        repeat split; intros; try reflexivity; try contradiction; try discriminate.
Qed.

Lemma volume_mute_sync_witness :
  0 <= 0 /\
  exists p', ytPlayer (step 5000%Q (VolumeInput 0)
               (step 4000%Q (PlayerStateChange PLAYING) unmutedSession)) = Some p' /\
    yt_muted p' = true.
Proof.
  split; [lia|].
  destruct (proj2 (volume_mute_sync 5000%Q 0
              (step 4000%Q (PlayerStateChange PLAYING) unmutedSession) ltac:(lia))
              _ eq_refl eq_refl ltac:(discriminate)) as (p' & Hp & Hm & _).
  exists p'. split; assumption.
Defined.

(** ** Announcements *)

Lemma rem_small (a b : Q) : (0 <= a)%Q -> (a < b)%Q -> (JS.rem a b == a)%Q.
Proof.
  intros Ha Hb. unfold JS.rem, JS.trunc.
  assert (Hq : (0 <= a / b)%Q) by (apply Qle_shift_div_l; lra).
  apply Qle_bool_iff in Hq as Hq'. rewrite Hq'.
  assert (Hq1 : (a / b < 1)%Q) by (apply Qlt_shift_div_r; lra).
  pose proof (Qfloor_le (a / b)) as Hlo.
  pose proof (Qlt_floor (a / b)) as Hhi.
  assert (Hk : Qfloor (a / b) = 0).
  { assert (H1 : (inject_Z (Qfloor (a / b)) < inject_Z 1)%Q) by (change (inject_Z 1) with 1%Q; lra).
    assert (H2 : (inject_Z 0 < inject_Z (Qfloor (a / b) + 1))%Q) by (change (inject_Z 0) with 0%Q; lra).
    rewrite <- Zlt_Qlt in H1, H2. lia. }
  rewrite Hk. change (inject_Z 0) with 0%Q. ring.
Qed.

(** The first four seconds of a session are an inhale. *)
Lemma phaseAt_first_window (elapsed : Q) :
  (0 <= elapsed)%Q -> (elapsed < 4000)%Q -> phaseAt elapsed = Inhale.
Proof.
  intros Hlo Hhi. unfold phaseAt, phaseFrom.
  rewrite (phaseLoop_comp _ _ elapsed).
  - cbn [phaseLoop Object_keys PHASES map fst].
    assert (E : JS.ltb elapsed (inject_Z (0 + pc_duration (PHASES_at Inhale))) = true).
    { apply ltb_spec. exact Hhi. }
    rewrite E. reflexivity.
  - apply rem_small; [assumption|]. rewrite CYCLE_DURATION_value.
    change (inject_Z 16000) with 16000%Q. lra.
Qed.

Lemma handleStart_fields r now w :
  appState (handleStart r now w) = Active /\
  startTimeRef (handleStart r now w) = now /\
  lastPhaseRef (handleStart r now w) = None /\
  announced (handleStart r now w) = announced w /\
  duration (handleStart r now w) = duration w.
Proof.
  unfold handleStart, andThen, when.
  destruct (negb (r_isMuted r)); [|repeat split; reflexivity].
  unfold playMusic, on_fallbackAudio, on_ytPlayer, clearFallbackTimeout, andThen.
  destruct (r_useFallback r); [repeat split; reflexivity|].
  cbn. destruct (g_ytPlayer (globals w)); repeat split; reflexivity.
Qed.


(** A session whose first frame comes five seconds after the start: the
    first announcement is the one of HoldIn. *)
Lemma first_tick_may_miss_inhale :
  lastPhaseRef mutedSession = None /\
  startTimeRef mutedSession = 1000%Q /\
  announced mutedSession = [] /\
  announced (step 6000%Q (AnimationFrame 6000%Q) mutedSession) = ["閉氣開始"] /\
  pc_announcement (PHASES_at Inhale) = "吸氣開始".
Proof. vm_compute. repeat split; reflexivity. Qed.


(** ** The watchdog and the playback mode *)

Create HintDb fallback discriminated.

Lemma keeps_skip : keepsFallback skip.
Proof. intros w H. exact H. Qed.

Lemma keeps_andThen c1 c2 :
  keepsFallback c1 -> keepsFallback c2 -> keepsFallback (c1 >> c2).
Proof. intros H1 H2 w H. apply H2, H1, H. Qed.

Lemma keeps_when b c : keepsFallback c -> keepsFallback (when b c).
Proof. intros Hc. destruct b; [exact Hc | apply keeps_skip]. Qed.

Lemma keeps_if (b : bool) c1 c2 :
  keepsFallback c1 -> keepsFallback c2 -> keepsFallback (if b then c1 else c2).
Proof. destruct b; auto. Qed.

Lemma keeps_upd_refs f : keepsFallback (upd_refs f).
Proof. intros w H. exact H. Qed.

Lemma keeps_upd_globals f : keepsFallback (upd_globals f).
Proof. intros w H. exact H. Qed.

Lemma keeps_upd_env f : keepsFallback (upd_env f).
Proof. intros w H. exact H. Qed.

Lemma keeps_on_ytPlayer f : keepsFallback (on_ytPlayer f).
Proof. intros w H. exact H. Qed.

Lemma keeps_on_fallbackAudio f : keepsFallback (on_fallbackAudio f).
Proof. intros w H. exact H. Qed.

Lemma keeps_setAppState v : keepsFallback (setAppState v).
Proof. intros w H. exact H. Qed.

Lemma keeps_setRemainingTime v : keepsFallback (setRemainingTime v).
Proof. intros w H. exact H. Qed.

Lemma keeps_setCurrentPhase v : keepsFallback (setCurrentPhase v).
Proof. intros w H. exact H. Qed.

Lemma keeps_setAriaAnnouncement v : keepsFallback (setAriaAnnouncement v).
Proof. intros w H. exact H. Qed.

Lemma keeps_setShowYoutubeError v : keepsFallback (setShowYoutubeError v).
Proof. intros w H. exact H. Qed.

Lemma keeps_setDuration v : keepsFallback (setDuration v).
Proof. intros w H. exact H. Qed.

Lemma keeps_setIsMuted v : keepsFallback (setIsMuted v).
Proof. intros w H. exact H. Qed.

Lemma keeps_setVolume v : keepsFallback (setVolume v).
Proof. intros w H. exact H. Qed.

(** The only call of [setUseFallback] in the component passes [true]. *)
Lemma keeps_setUseFallback_true : keepsFallback (setUseFallback true).
Proof. intros w _. reflexivity. Qed.

#[local] Hint Resolve keeps_skip keeps_andThen keeps_when keeps_if
  keeps_upd_refs keeps_upd_globals keeps_upd_env keeps_on_ytPlayer
  keeps_on_fallbackAudio keeps_setAppState keeps_setRemainingTime
  keeps_setCurrentPhase keeps_setAriaAnnouncement keeps_setShowYoutubeError
  keeps_setDuration keeps_setIsMuted keeps_setVolume
  keeps_setUseFallback_true : fallback.

#[local] Hint Unfold clearFallbackTimeout set_fallbackTimeoutRef set_startTimeRef
  set_pauseTimeRef set_lastPhaseRef set_ytPlayer set_fallbackAudio
  set_smoothVolumeInterval set_restartTimeout : fallback.

Lemma keeps_playMusic r now : keepsFallback (playMusic r now).
Proof.
  intros w H. unfold playMusic.
  destruct (r_useFallback r); [exact H|].
  destruct (ytPlayer w); exact H.
Qed.

Lemma keeps_pauseMusic r : keepsFallback (pauseMusic r).
Proof. unfold pauseMusic. auto 6 with fallback. Qed.

Lemma keeps_stopMusic r : keepsFallback (stopMusic r).
Proof. unfold stopMusic. auto 6 with fallback. Qed.

#[local] Hint Resolve keeps_playMusic keeps_pauseMusic keeps_stopMusic : fallback.

Lemma keeps_handleStart r now : keepsFallback (handleStart r now).
Proof. unfold handleStart. auto 10 with fallback. Qed.

Lemma keeps_handlePause r now : keepsFallback (handlePause r now).
Proof. unfold handlePause. auto 10 with fallback. Qed.

Lemma keeps_handleResume r now : keepsFallback (handleResume r now).
Proof.
  unfold handleResume.
  apply keeps_andThen; [apply keeps_andThen|]; auto with fallback.
Qed.

Lemma keeps_handleEnd r : keepsFallback (handleEnd r).
Proof. unfold handleEnd. auto 10 with fallback. Qed.

Lemma keeps_handleComplete r : keepsFallback (handleComplete r).
Proof. unfold handleComplete. auto 10 with fallback. Qed.

Lemma keeps_handleRestart r now : keepsFallback (handleRestart r now).
Proof.
  unfold handleRestart. apply keeps_andThen; auto with fallback.
Qed.

#[local] Hint Resolve keeps_handleStart keeps_handlePause keeps_handleResume
  keeps_handleEnd keeps_handleComplete keeps_handleRestart : fallback.

Lemma keeps_tick r ts : keepsFallback (tick r ts).
Proof.
  intros w H. unfold tick.
  destruct (Qle_bool _ 0); [apply keeps_handleComplete; exact H|].
  destruct (decide _); exact H.
Qed.

Lemma keeps_handleMuteToggle r now : keepsFallback (handleMuteToggle r now).
Proof. unfold handleMuteToggle. auto 12 with fallback. Qed.

Lemma keeps_handleVolumeChange r now v : keepsFallback (handleVolumeChange r now v).
Proof.
  unfold handleVolumeChange. apply keeps_andThen; [auto with fallback|].
  intros w H.
  destruct (r_useFallback r).
  - destruct (fallbackAudio w); [|exact H]. destruct (decide _); exact H.
  - destruct (ytPlayer w) as [p|]; [|exact H].
    destruct (decide _); [|exact H].
    assert (H1 : useFallback (smoothSetVolume now v w) = true).
    { unfold smoothSetVolume. destruct (ytPlayer w); exact H. }
    destruct (_ && _); [exact H1|]. destruct (_ && _); exact H1.
Qed.

Lemma keeps_fallbackTimeoutCallback wd : keepsFallback (fallbackTimeoutCallback wd).
Proof.
  intros w H. unfold fallbackTimeoutCallback.
  destruct (ytPlayer w); [|exact H]. destruct (decide _); [reflexivity | exact H].
Qed.

Lemma keeps_smoothVolumeCallback sm : keepsFallback (smoothVolumeCallback sm).
Proof. unfold smoothVolumeCallback. cbv zeta. auto 8 with fallback. Qed.

Lemma keeps_handleKeyDown r now key : keepsFallback (handleKeyDown r now key).
Proof.
  unfold handleKeyDown.
  do 4 (apply keeps_if; [auto with fallback|]). apply keeps_skip.
Qed.

Lemma keeps_step now e : keepsFallback (step now e).
Proof.
  intros w H. destruct e; unfold step.
  - apply keeps_handleKeyDown, H.
  - apply keeps_when; [apply keeps_handleStart | exact H].
  - apply keeps_when; [apply keeps_setDuration | exact H].
  - apply keeps_when; [apply keeps_handlePause | exact H].
  - apply keeps_when; [apply keeps_handleResume | exact H].
  - apply keeps_when; [apply keeps_handleEnd | exact H].
  - apply keeps_when; [apply keeps_handleRestart | exact H].
  - apply keeps_handleMuteToggle, H.
  - apply keeps_handleVolumeChange, H.
  - unfold handleVisibilityChange. apply keeps_when; [apply keeps_handlePause | exact H].
  - apply keeps_when; [apply keeps_tick | exact H].
  - unfold mountEffect. destruct (fallbackAudio w); exact H.
  - unfold initPlayer. destruct (ytPlayer w); exact H.
  - exact H.
  - destruct (ytPlayer w); [|exact H]. unfold onStateChange, andThen, when.
    destruct (bool_decide _); exact H.
  - destruct (fallbackTimeoutRef w); [|exact H]. destruct (Qle_bool _ _); [|exact H].
    apply keeps_fallbackTimeoutCallback. exact H.
  - destruct (restartTimeout w); [exact H|]. destruct (Qle_bool _ _); [|exact H].
    apply keeps_handleStart. exact H.
  - destruct (smoothVolumeInterval w); [|exact H]. destruct (Qle_bool _ _); [|exact H].
    apply keeps_smoothVolumeCallback. exact H.
Qed.

(** Once on the backup backend, always on it. *)
Lemma fallback_is_permanent (trace : list (Q * Event)) (w : World) :
  useFallback w = true -> useFallback (run trace w) = true.
Proof.
  revert w. induction trace as [|[now e] trace IH]; intros w H; [exact H|].
  cbn [run]. apply IH, keeps_step, H.
Qed.

(** A play request that is never answered, and no fallback: the user pauses
    one second after the start, which clears the watchdog; or the player
    reports PLAYING once and is buffering again at the deadline. *)
Lemma unanswered_play_request_without_fallback :
  (yt_calls <$> ytPlayer unmutedSession = Some [PlayVideo] /\
   wd_due <$> fallbackTimeoutRef unmutedSession = Some (2000 + 3000)%Q) /\
  (yt_state <$> ytPlayer (run [ (3000%Q, ClickPause); (5000%Q, FallbackTimeout) ]
                            unmutedSession) = Some UNSTARTED /\
   useFallback (run [ (3000%Q, ClickPause); (5000%Q, FallbackTimeout) ]
                  unmutedSession) = false /\
   showYoutubeError (run [ (3000%Q, ClickPause); (5000%Q, FallbackTimeout) ]
                       unmutedSession) = false) /\
  (yt_state <$> ytPlayer (run [ (2600%Q, PlayerStateChange PLAYING);
                                (4000%Q, PlayerStateChange BUFFERING);
                                (5000%Q, FallbackTimeout) ] unmutedSession)
     = Some BUFFERING /\
   useFallback (run [ (2600%Q, PlayerStateChange PLAYING);
                      (4000%Q, PlayerStateChange BUFFERING);
                      (5000%Q, FallbackTimeout) ] unmutedSession) = false /\
   au_calls <$> fallbackAudio (run [ (2600%Q, PlayerStateChange PLAYING);
                                     (4000%Q, PlayerStateChange BUFFERING);
                                     (5000%Q, FallbackTimeout) ] unmutedSession)
     = Some []).
Proof. vm_compute. repeat split; reflexivity. Qed.

(** The values the watchdog writes to the backup are those its closure
    captured.  Unmuting during a session calls the [playMusic] of the render
    in which the widget was still muted: when that watchdog fires, the backup
    is started muted although the mute cell says unmuted. *)
Example watchdog_mirrors_captured_mute :
  isMuted (run [ (3000%Q, ClickMute); (6000%Q, FallbackTimeout) ] mutedSession) = false /\
  useFallback (run [ (3000%Q, ClickMute); (6000%Q, FallbackTimeout) ] mutedSession) = true /\
  au_muted <$> fallbackAudio (run [ (3000%Q, ClickMute); (6000%Q, FallbackTimeout) ]
                                mutedSession) = Some true.
Proof. vm_compute. repeat split; reflexivity. Qed.

(** Without a player object a play request on the primary backend is
    lost: unmuting during a session on a page where the player was never
    created arms no watchdog, and no later time-out switches to the backup. *)
Example play_request_without_player :
  ytPlayer (step 3000%Q ClickMute unloadedSession) = None /\
  fallbackTimeoutRef (step 3000%Q ClickMute unloadedSession) = None /\
  useFallback (run [ (3000%Q, ClickMute); (6000%Q, FallbackTimeout) ]
                 unloadedSession) = false /\
  showYoutubeError (run [ (3000%Q, ClickMute); (6000%Q, FallbackTimeout) ]
                      unloadedSession) = false /\
  audioCalls (run [ (3000%Q, ClickMute); (6000%Q, FallbackTimeout) ]
                unloadedSession) = Some [].
Proof. vm_compute. repeat split; reflexivity. Qed.

(** C3, amended. When the player object exists, a play request on the
    primary backend sends it playVideo and arms a watchdog due 3000 ms later;
    when the player object does not exist, the play request changes nothing
    at all (no watchdog, no switch).  If an armed watchdog is still pending
    when it is due (no pause, stop or end and no PLAYING notification cleared
    it) and the player then reports a state other than PLAYING, the widget
    sets the error flag, switches to the backup backend, stops the player and
    asks the backup to play; a watchdog that fires while no player object
    exists only ceases to be pending.  Once the widget is on the backup
    backend no run of events brings it back to the primary one. *)
Theorem watchdog_switches_to_backup :
  (forall r now w p,
     r_useFallback r = false -> ytPlayer w = Some p ->
     ytPlayer (playMusic r now w) = Some (yt_request PlayVideo p) /\
     wd_due <$> fallbackTimeoutRef (playMusic r now w) = Some (now + 3000)%Q) /\
  (forall now w wd p,
     fallbackTimeoutRef w = Some wd -> (wd_due wd <= now)%Q ->
     ytPlayer w = Some p -> yt_state p <> PLAYING ->
     let w' := step now FallbackTimeout w in
     useFallback w' = true /\
     showYoutubeError w' = true /\
     ytPlayer w' = Some (yt_request StopVideo p) /\
     fallbackTimeoutRef w' = None /\
     forall a, fallbackAudio w = Some a ->
       exists a', fallbackAudio w' = Some a' /\
         au_calls a' = AudioPlay :: au_calls a) /\
  (forall trace w, useFallback w = true -> useFallback (run trace w) = true) /\
  (forall r now w,
     r_useFallback r = false -> ytPlayer w = None -> playMusic r now w = w) /\
  (forall now w wd,
     fallbackTimeoutRef w = Some wd -> (wd_due wd <= now)%Q ->
     ytPlayer w = None ->
     step now FallbackTimeout w = set_fallbackTimeoutRef None w).
Proof.
  split.
  { intros r now w p Hfb Hp. unfold playMusic. rewrite Hfb, Hp.
    unfold andThen, on_ytPlayer, clearFallbackTimeout. cbn. cbn in Hp. rewrite Hp.
    split; reflexivity. }
  split.
  { intros now w wd p Hwd Hdue Hp Hst w'. unfold w', step. rewrite Hwd.
    apply Qle_bool_iff in Hdue. rewrite Hdue.
    unfold andThen, fallbackTimeoutCallback.
    change (ytPlayer (set_fallbackTimeoutRef None w)) with (ytPlayer w). rewrite Hp.
    destruct (decide (yt_state p <> PLAYING)); [|contradiction].
    unfold on_ytPlayer, on_fallbackAudio. cbn. cbn in Hp. rewrite Hp.
    repeat split. intros a Ha. rewrite Ha. eexists. split; reflexivity. }
  split; [exact fallback_is_permanent|].
  split.
  { intros r now w Hfb Hp. unfold playMusic. now rewrite Hfb, Hp. }
  intros now w wd Hwd Hdue Hp. unfold step. rewrite Hwd.
  apply Qle_bool_iff in Hdue. rewrite Hdue.
  unfold andThen, fallbackTimeoutCallback.
  change (ytPlayer (set_fallbackTimeoutRef None w)) with (ytPlayer w).
  now rewrite Hp.
Qed.

Lemma watchdog_switches_to_backup_witness :
  useFallback (step 5000%Q FallbackTimeout unmutedSession) = true /\
  showYoutubeError (step 5000%Q FallbackTimeout unmutedSession) = true.
Proof.
  destruct (proj1 (proj2 watchdog_switches_to_backup) 5000%Q unmutedSession
              (mkWatchdog (2000 + 3000)%Q 40 false) (mkPlayer UNSTARTED 40 false [PlayVideo])
              eq_refl ltac:(discriminate) eq_refl ltac:(discriminate))
    as (H1 & H2 & _).
  split; assumption.
Defined.

(** * Further properties of the tick *)

Section TickNumbers.

Local Open Scope Q_scope.

Lemma max0_nonneg (x : Q) : 0 <= JS.max 0 x.
Proof.
  unfold JS.max. destruct (Qle_bool 0 x) eqn:E; [now apply Qle_bool_iff | lra].
Qed.

Lemma max0_id (x : Q) : 0 <= x -> JS.max 0 x == x.
Proof.
  intros H. unfold JS.max. apply Qle_bool_iff in H. now rewrite H.
Qed.

Lemma max0_mono (x y : Q) : x <= y -> JS.max 0 x <= JS.max 0 y.
Proof.
  intros H. unfold JS.max.
  destruct (Qle_bool 0 x) eqn:Ex, (Qle_bool 0 y) eqn:Ey;
    try apply Qle_bool_iff in Ex; try apply Qle_bool_iff in Ey; try lra.
  destruct (Qlt_le_dec y 0) as [Hy|Hy]; [lra|].
  apply Qle_bool_iff in Hy. congruence.
Qed.

Lemma ceil_mono (x y : Q) : x <= y -> (JS.ceil x <= JS.ceil y)%Z.
Proof. apply Qceiling_resp_le. Qed.

Lemma ceil_inject_Z (z : Z) : JS.ceil (inject_Z z) = z.
Proof. apply Qceiling_Z. Qed.

Lemma floor_succ (x : Q) : Qfloor (x + 1) = (Qfloor x + 1)%Z.
Proof.
  pose proof (Qfloor_le x) as H1. pose proof (Qlt_floor x) as H2.
  pose proof (Qfloor_le (x + 1)) as H3. pose proof (Qlt_floor (x + 1)) as H4.
  rewrite inject_Z_plus in H2, H4. change (inject_Z 1) with 1 in H2, H4.
  assert (Ha : inject_Z (Qfloor (x + 1)) < inject_Z (Qfloor x + 1 + 1)).
  { rewrite !inject_Z_plus. change (inject_Z 1) with 1. lra. }
  assert (Hb : inject_Z (Qfloor x + 1) < inject_Z (Qfloor (x + 1) + 1)).
  { rewrite !inject_Z_plus. change (inject_Z 1) with 1. lra. }
  rewrite <- Zlt_Qlt in Ha, Hb. lia.
Qed.

(** [%] has the period of its divisor on non-negative dividends. *)
Lemma rem_period (a b : Q) : 0 <= a -> 0 < b -> JS.rem (a + b) b == JS.rem a b.
Proof.
  intros Ha Hb. unfold JS.rem, JS.trunc.
  assert (Hq : 0 <= a / b) by (apply Qle_shift_div_l; lra).
  assert (Hq' : 0 <= (a + b) / b) by (apply Qle_shift_div_l; lra).
  apply Qle_bool_iff in Hq, Hq'. rewrite Hq, Hq'.
  assert (E : (a + b) / b == a / b + 1) by (field; lra).
  rewrite (Qfloor_comp _ _ E), floor_succ, inject_Z_plus.
  change (inject_Z 1) with 1. ring.
Qed.


End TickNumbers.



Lemma max0_nonpos (x : Q) : (x <= 0)%Q -> (JS.max 0 x == 0)%Q.
Proof.
  intros H. unfold JS.max. destruct (Qle_bool 0 x) eqn:E; [|reflexivity].
  apply Qle_bool_iff in E. lra.
Qed.

Lemma tick_completes_more r ts w :
  Qle_bool (newRemainingTimeAt r ts w) 0 = true ->
  ariaAnnouncement (tick r ts w) = "練習完成" /\
  fallbackTimeoutRef (tick r ts w) = None.
Proof.
  intros H. unfold tick. rewrite H.
  unfold handleComplete, stopMusic, andThen, clearFallbackTimeout,
    on_fallbackAudio, on_ytPlayer.
  destruct (r_useFallback r); split; reflexivity.
Qed.

(** Within one cycle the phase is read off four consecutive windows:
    [0, 4000) Inhale, [4000, 6000) HoldIn, [6000, 12000) Exhale and
    [12000, 16000) HoldOut. *)
Theorem phase_windows (elapsed : Q) :
  (0 <= elapsed)%Q -> (elapsed < 16000)%Q ->
  ((elapsed < 4000)%Q -> phaseAt elapsed = Inhale) /\
  ((4000 <= elapsed)%Q -> (elapsed < 6000)%Q -> phaseAt elapsed = HoldIn) /\
  ((6000 <= elapsed)%Q -> (elapsed < 12000)%Q -> phaseAt elapsed = Exhale) /\
  ((12000 <= elapsed)%Q -> phaseAt elapsed = HoldOut).
Proof.
  intros Hlo Hhi.
  assert (E : phaseAt elapsed = phaseLoop (Object_keys PHASES) elapsed 0 HoldOut).
  { unfold phaseAt, phaseFrom. apply phaseLoop_comp, rem_small; [assumption|].
    rewrite CYCLE_DURATION_value. exact Hhi. }
  rewrite E. cbn [phaseLoop Object_keys PHASES map fst].
  change (inject_Z (0 + pc_duration (PHASES_at Inhale))) with 4000%Q.
  change (inject_Z (0 + pc_duration (PHASES_at Inhale) + pc_duration (PHASES_at HoldIn)))
    with 6000%Q.
  change (inject_Z (0 + pc_duration (PHASES_at Inhale) + pc_duration (PHASES_at HoldIn)
                    + pc_duration (PHASES_at Exhale))) with 12000%Q.
  change (inject_Z (0 + pc_duration (PHASES_at Inhale) + pc_duration (PHASES_at HoldIn)
                    + pc_duration (PHASES_at Exhale) + pc_duration (PHASES_at HoldOut)))
    with 16000%Q.
  destruct (JS.ltb elapsed 4000) eqn:E1;
    [apply ltb_spec in E1 | apply ltb_false in E1];
  destruct (JS.ltb elapsed 6000) eqn:E2;
    [apply ltb_spec in E2 | apply ltb_false in E2 | apply ltb_spec in E2 | apply ltb_false in E2];
  destruct (JS.ltb elapsed 12000) eqn:E3;
    try apply ltb_spec in E3; try apply ltb_false in E3;
  destruct (JS.ltb elapsed 16000) eqn:E4;
    try apply ltb_spec in E4; try apply ltb_false in E4;
  repeat split; intros; try reflexivity; exfalso; lra.
Qed.

Lemma phase_windows_witness :
  (0 <= 7500)%Q /\ (7500 < 16000)%Q /\ phaseAt 7500 = Exhale.
Proof.
  split; [discriminate|]. split; [reflexivity|].
  apply (phase_windows 7500%Q); [discriminate | reflexivity | discriminate | reflexivity].
Defined.

(** The phases repeat with the period of the cycle: any number of whole
    cycles later the phase is the same. *)
Theorem phase_periodic (elapsed : Q) (cycles : nat) :
  (0 <= elapsed)%Q ->
  phaseAt (elapsed + inject_Z (Z.of_nat cycles) * inject_Z CYCLE_DURATION)%Q
  = phaseAt elapsed.
Proof.
  intros Hlo. induction cycles as [|n IH].
  - apply phaseFrom_comp. change (inject_Z (Z.of_nat 0)) with 0%Q. ring.
  - rewrite <- IH. unfold phaseAt, phaseFrom. apply phaseLoop_comp.
    rewrite <- (rem_period (elapsed + inject_Z (Z.of_nat n) * inject_Z CYCLE_DURATION)
                  (inject_Z CYCLE_DURATION)).
    + apply rem_comp. rewrite Nat2Z.inj_succ, <- Z.add_1_r, inject_Z_plus.
      change (inject_Z 1) with 1%Q. ring.
    + assert (H : (0 <= inject_Z (Z.of_nat n) * inject_Z CYCLE_DURATION)%Q).
      { apply Qmult_le_0_compat; [|discriminate].
        change 0%Q with (inject_Z 0). rewrite <- Zle_Qle. lia. }
      lra.
    + reflexivity.
Qed.

Lemma phase_periodic_witness :
  (0 <= 5000)%Q /\
  phaseAt (5000 + inject_Z (Z.of_nat 3) * inject_Z CYCLE_DURATION)%Q = phaseAt 5000.
Proof.
  split; [discriminate|]. apply (phase_periodic 5000%Q 3). discriminate.
Defined.



(** * The time display *)

(** Two decimal digits, zero-padded, for the numbers below one hundred. *)
Lemma padStart_two_digits (n : nat) :
  (n < 100)%nat ->
  padStart 2 "0"%char (pretty (Z.of_nat n))
  = String (pretty_N_char (N.of_nat (n / 10)))
      (String (pretty_N_char (N.of_nat (n mod 10))) "").
Proof.
  intros H.
  do 100 (destruct n as [|n]; [reflexivity|]).
  lia.
Qed.

Lemma padStart_two_digits_Z (z : Z) :
  0 <= z < 100 ->
  padStart 2 "0"%char (pretty z)
  = String (pretty_N_char (Z.to_N (z / 10)))
      (String (pretty_N_char (Z.to_N (z mod 10))) "").
Proof.
  intros H. rewrite <- (Z2Nat.id z) at 1 by lia.
  rewrite padStart_two_digits by lia.
  f_equal; [|f_equal]; f_equal; apply N2Z.inj.
  - rewrite nat_N_Z, Nat2Z.inj_div, Z2Nat.id, Z2N.id by (try apply Z.div_pos; lia).
    reflexivity.
  - rewrite nat_N_Z, Nat2Z.inj_mod, Z2Nat.id, Z2N.id
      by (try apply Z.mod_pos_bound; lia).
    reflexivity.
Qed.

Lemma formatTime_digits (seconds : Z) :
  0 <= seconds < 6000 ->
  formatTime seconds
  = String (pretty_N_char (Z.to_N (seconds / 60 / 10)))
      (String (pretty_N_char (Z.to_N (seconds / 60 mod 10)))
         (String ":"%char
            (String (pretty_N_char (Z.to_N (seconds mod 60 / 10)))
               (String (pretty_N_char (Z.to_N (seconds mod 60 mod 10))) "")))).
Proof.
  intros H. unfold formatTime. rewrite Z.rem_mod_nonneg by lia.
  rewrite (padStart_two_digits_Z (seconds / 60))
    by (split; [apply Z.div_pos; lia | apply Z.div_lt_upper_bound; lia]).
  rewrite (padStart_two_digits_Z (seconds mod 60))
    by (pose proof (Z.mod_pos_bound seconds 60); lia).
  reflexivity.
Qed.

(** For every time below 100 minutes the display has the five characters
    MM:SS: the two decimal digits of the minutes, a colon, the two decimal
    digits of the seconds. *)
Theorem formatTime_shape (seconds : Z) :
  0 <= seconds < 6000 ->
  formatTime seconds
  = String (pretty_N_char (Z.to_N (seconds / 60 / 10)))
      (String (pretty_N_char (Z.to_N (seconds / 60 mod 10)))
         (String ":"%char
            (String (pretty_N_char (Z.to_N (seconds mod 60 / 10)))
               (String (pretty_N_char (Z.to_N (seconds mod 60 mod 10))) "")))) /\
  String.length (formatTime seconds) = 5%nat.
Proof.
  intros H. pose proof (formatTime_digits seconds H) as E.
  split; [exact E | rewrite E; reflexivity].
Qed.

Lemma formatTime_shape_witness :
  0 <= 115 < 6000 /\ String.length (formatTime 115) = 5%nat.
Proof.
  split; [lia|]. apply (formatTime_shape 115). lia.
Defined.

(** Below 100 minutes, different times are displayed differently. *)
Theorem formatTime_injective (s1 s2 : Z) :
  0 <= s1 < 6000 -> 0 <= s2 < 6000 ->
  formatTime s1 = formatTime s2 -> s1 = s2.
Proof.
  intros H1 H2 E.
  rewrite (formatTime_digits s1 H1), (formatTime_digits s2 H2) in E.
  injection E as Ea Eb Ec Ed.
  assert (Hm1 : 0 <= s1 / 60 < 100)
    by (split; [apply Z.div_pos; lia | apply Z.div_lt_upper_bound; lia]).
  assert (Hm2 : 0 <= s2 / 60 < 100)
    by (split; [apply Z.div_pos; lia | apply Z.div_lt_upper_bound; lia]).
  pose proof (Z.mod_pos_bound s1 60 ltac:(lia)) as Hs1.
  pose proof (Z.mod_pos_bound s2 60 ltac:(lia)) as Hs2.
  assert (Hdigit : forall a b, 0 <= a < 10 -> 0 <= b < 10 ->
            pretty_N_char (Z.to_N a) = pretty_N_char (Z.to_N b) -> a = b).
  { intros a b Ha Hb Hc. apply pretty_N_char_inj in Hc; lia. }
  apply Hdigit in Ea; [|split; [apply Z.div_pos | apply Z.div_lt_upper_bound]; lia..].
  apply Hdigit in Eb; [|apply Z.mod_pos_bound; lia..].
  apply Hdigit in Ec; [|split; [apply Z.div_pos | apply Z.div_lt_upper_bound]; lia..].
  apply Hdigit in Ed; [|apply Z.mod_pos_bound; lia..].
  rewrite (Z.div_mod s1 60), (Z.div_mod s2 60) by lia.
  rewrite (Z.div_mod (s1 / 60) 10), (Z.div_mod (s2 / 60) 10) by lia.
  rewrite (Z.div_mod (s1 mod 60) 10), (Z.div_mod (s2 mod 60) 10) by lia.
  rewrite Ea, Eb, Ec, Ed. reflexivity.
Qed.

Lemma formatTime_injective_witness :
  0 <= 115 < 6000 /\ 0 <= 15 < 6000 /\ formatTime 115 <> formatTime 15.
Proof.
  split; [lia|]. split; [lia|].
  intros E. apply (formatTime_injective 115 15) in E; [discriminate | lia | lia].
Defined.

(** * Further properties of the session state machine *)

(** The keyboard does what the buttons do: Enter starts from Idle, Space
    pauses an Active and resumes a Paused session, Escape ends an Active or
    Paused one.  Every other key in those states, and every key once the
    session is Complete, changes nothing. *)
Theorem keyboard_matches_buttons (now : Q) (key : string) (w : World) :
  (appState w = Idle ->
     step now (KeyDown "Enter") w = step now ClickStart w /\
     (key <> "Enter" -> step now (KeyDown key) w = w)) /\
  (appState w = Active ->
     step now (KeyDown " ") w = step now ClickPause w /\
     step now (KeyDown "Escape") w = step now ClickEnd w /\
     (key <> " " -> key <> "Escape" -> step now (KeyDown key) w = w)) /\
  (appState w = Paused ->
     step now (KeyDown " ") w = step now ClickResume w /\
     step now (KeyDown "Escape") w = step now ClickEnd w /\
     (key <> " " -> key <> "Escape" -> step now (KeyDown key) w = w)) /\
  (appState w = Complete -> step now (KeyDown key) w = w).
Proof.
  unfold step, handleKeyDown, render. cbn [r_appState].
  split; [|split; [|split]]; intros Hst; rewrite Hst;
    cbn [bool_decide decide_rel andb orb negb when].
  - split; [reflexivity|].
    intros Hk. rewrite (bool_decide_eq_false_2 _ Hk). reflexivity.
  - split; [reflexivity|]. split; [reflexivity|].
    intros H1 H2. rewrite (bool_decide_eq_false_2 _ H1), (bool_decide_eq_false_2 _ H2).
    reflexivity.
  - split; [reflexivity|]. split; [reflexivity|].
    intros H1 H2. rewrite (bool_decide_eq_false_2 _ H1), (bool_decide_eq_false_2 _ H2).
    reflexivity.
  - reflexivity.
Qed.

Lemma keyboard_matches_buttons_witness :
  appState mutedSession = Active /\
  step 5000%Q (KeyDown "Enter") mutedSession = mutedSession.
Proof.
  split; [reflexivity|].
  apply (proj1 (proj2 (keyboard_matches_buttons 5000%Q "Enter" mutedSession)));
    [reflexivity | discriminate | discriminate].
Defined.

(** * Further properties of the music control *)

(** Starting or resuming a session while muted sends nothing to either
    backend and arms no watchdog. *)
Theorem muted_session_is_silent (now : Q) (w : World) :
  isMuted w = true ->
  (appState w = Idle ->
     appState (step now ClickStart w) = Active /\
     globals (step now ClickStart w) = globals w /\
     fallbackTimeoutRef (step now ClickStart w) = fallbackTimeoutRef w) /\
  (appState w = Paused ->
     appState (step now ClickResume w) = Active /\
     globals (step now ClickResume w) = globals w /\
     fallbackTimeoutRef (step now ClickResume w) = fallbackTimeoutRef w).
Proof.
  intros Hm. unfold step, render.
  split; intros Hst; rewrite Hst; cbn [bool_decide decide_rel when];
    unfold handleStart, handleResume, andThen, when; cbn [r_isMuted];
    rewrite Hm; repeat split; reflexivity.
Qed.

Lemma muted_session_is_silent_witness :
  isMuted (loaded firstVisit) = true /\
  appState (loaded firstVisit) = Idle /\
  globals (step 1000%Q ClickStart (loaded firstVisit)) = globals (loaded firstVisit).
Proof.
  split; [reflexivity|]. split; [reflexivity|].
  apply (proj1 (muted_session_is_silent 1000%Q (loaded firstVisit) eq_refl)).
  reflexivity.
Defined.

(** Unmuting while no session is running (Idle or Complete) flips the mute
    flags but starts nothing: neither backend receives a playback request and
    no watchdog is armed. *)
Theorem unmute_outside_session_starts_nothing (now : Q) (w : World) :
  appState w = Idle \/ appState w = Complete ->
  isMuted w = true ->
  let w' := step now ClickMute w in
  isMuted w' = false /\
  playerCalls w' = playerCalls w /\
  audioCalls w' = audioCalls w /\
  fallbackTimeoutRef w' = fallbackTimeoutRef w.
Proof.
  intros Hst Hm w'. unfold w'. rewrite step_mute.
  unfold handleMuteToggle, render. cbn [r_isMuted r_useFallback r_appState].
  rewrite Hm. cbn [negb andb].
  assert (Hview : bool_decide (appState w = Active) || bool_decide (appState w = Paused)
                  = false).
  { destruct Hst as [-> | ->]; reflexivity. }
  rewrite Hview. unfold andThen, when, skip, on_fallbackAudio, on_ytPlayer,
    playerCalls, audioCalls.
  destruct (useFallback w); cbn.
  - destruct (g_fallbackAudio (globals w)); repeat split; reflexivity.
  - destruct (g_ytPlayer (globals w)); repeat split; reflexivity.
Qed.

Lemma unmute_outside_session_starts_nothing_witness :
  (appState (loaded firstVisit) = Idle \/ appState (loaded firstVisit) = Complete) /\
  isMuted (loaded firstVisit) = true /\
  playerCalls (step 1500%Q ClickMute (loaded firstVisit)) = Some [].
Proof.
  split; [left; reflexivity|]. split; [reflexivity|].
  apply (unmute_outside_session_starts_nothing 1500%Q (loaded firstVisit));
    [left; reflexivity | reflexivity].
Defined.

Lemma no_watchdog_no_timeout (now : Q) (w : World) :
  fallbackTimeoutRef w = None -> step now FallbackTimeout w = w.
Proof. intros H. unfold step. rewrite H. reflexivity. Qed.

Lemma pauseMusic_clears r w : fallbackTimeoutRef (pauseMusic r w) = None.
Proof.
  unfold pauseMusic, andThen, clearFallbackTimeout, on_fallbackAudio, on_ytPlayer.
  destruct (r_useFallback r); reflexivity.
Qed.

Lemma stopMusic_clears r w : fallbackTimeoutRef (stopMusic r w) = None.
Proof.
  unfold stopMusic, andThen, clearFallbackTimeout, on_fallbackAudio, on_ytPlayer.
  destruct (r_useFallback r); reflexivity.
Qed.

(** Pausing (button, Space, hidden page), ending (button, Escape), muting and
    a PLAYING notification of the player each cancel the watchdog: a timeout
    event at any later time changes nothing, so no switch to the backup
    follows. *)
Theorem cancelled_watchdog_never_fires (now later : Q) (w : World) :
  (appState w = Active ->
     forall e, e ∈ [ClickPause; KeyDown " "; VisibilityChange true;
                    ClickEnd; KeyDown "Escape"] ->
     step later FallbackTimeout (step now e w) = step now e w) /\
  (appState w = Paused ->
     forall e, e ∈ [ClickEnd; KeyDown "Escape"] ->
     step later FallbackTimeout (step now e w) = step now e w) /\
  (isMuted w = false ->
     step later FallbackTimeout (step now ClickMute w) = step now ClickMute w) /\
  (is_Some (ytPlayer w) ->
     step later FallbackTimeout (step now (PlayerStateChange PLAYING) w)
     = step now (PlayerStateChange PLAYING) w).
Proof.
  split; [|split; [|split]].
  - intros Hst e He. apply no_watchdog_no_timeout.
    unfold step, handleKeyDown, handleVisibilityChange, render. cbn [r_appState].
    repeat (apply elem_of_cons in He as [-> | He]); [..|inversion He];
      rewrite ?Hst; cbn [bool_decide decide_rel andb orb negb when];
      unfold handlePause, handleEnd, andThen; cbn;
      first [apply pauseMusic_clears | apply stopMusic_clears].
  - intros Hst e He. apply no_watchdog_no_timeout.
    unfold step, handleKeyDown, render. cbn [r_appState].
    repeat (apply elem_of_cons in He as [-> | He]); [..|inversion He];
      rewrite ?Hst; cbn [bool_decide decide_rel andb orb negb when];
      unfold handleEnd, andThen; cbn; apply stopMusic_clears.
  - intros Hm. apply no_watchdog_no_timeout. rewrite step_mute.
    unfold handleMuteToggle, render. cbn [r_isMuted r_useFallback r_appState].
    rewrite Hm. cbn [negb andb when]. unfold andThen, skip. apply pauseMusic_clears.
  - intros [p Hp]. apply no_watchdog_no_timeout. unfold step. rewrite Hp.
    reflexivity.
Qed.

Lemma cancelled_watchdog_never_fires_witness :
  appState unmutedSession = Active /\
  is_Some (fallbackTimeoutRef unmutedSession) /\
  step 5000%Q FallbackTimeout (step 3000%Q (KeyDown " ") unmutedSession)
  = step 3000%Q (KeyDown " ") unmutedSession.
Proof.
  split; [reflexivity|]. split; [eexists; reflexivity|].
  apply (proj1 (cancelled_watchdog_never_fires 3000%Q 5000%Q unmutedSession));
    [reflexivity | set_solver].
Defined.

(** * Restart and the choice of the duration *)

Lemma handleStart_more r now w :
  remainingTime (handleStart r now w) = r_duration r /\
  duration (handleStart r now w) = duration w /\
  restartTimeout (handleStart r now w) = restartTimeout w.
Proof.
  unfold handleStart, andThen, when.
  destruct (negb (r_isMuted r)); [|repeat split; reflexivity].
  unfold playMusic, on_fallbackAudio, on_ytPlayer, clearFallbackTimeout, andThen.
  destruct (r_useFallback r); [repeat split; reflexivity|].
  cbn. destruct (g_ytPlayer (globals w)); repeat split; reflexivity.
Qed.

(** Restart shows the Idle view and starts a new session 100 ms later, not
    before.  The start is the one of the render that handled the click: when
    the user picks another duration in between, the new session runs with the
    new duration, but the remaining time it first displays is the old one. *)
Theorem restart_starts_with_captured_duration
    (clicked picked fired : Q) (d : Z) (w : World) :
  appState w = Complete ->
  restartTimeout w = [] ->
  d ∈ DURATION_OPTIONS ->
  (clicked + 100 <= fired)%Q ->
  let w1 := step clicked ClickRestart w in
  let w2 := step picked (ClickDuration d) w1 in
  let w3 := step fired RestartTimeout w2 in
  appState w1 = Idle /\
  (forall early, (early < clicked + 100)%Q -> step early RestartTimeout w1 = w1) /\
  appState w3 = Active /\
  startTimeRef w3 = fired /\
  lastPhaseRef w3 = None /\
  restartTimeout w3 = [] /\
  duration w3 = d /\
  remainingTime w3 = duration w.
Proof.
  intros Hst Hrs Hd Hdue w1 w2 w3.
  assert (E1 : w1 = set_restartTimeout [mkRestart (clicked + 100)%Q (render w)]
                      (setAppState Idle w)).
  { unfold w1, step. rewrite Hst. unfold handleRestart, andThen.
    change (when (bool_decide (Complete = Complete)) ?c w) with (c w). cbv beta.
    change (restartTimeout (setAppState Idle w)) with (restartTimeout w).
    rewrite Hrs. reflexivity. }
  clearbody w1. subst w1.
  assert (E2 : w2 = setDuration d
                      (set_restartTimeout [mkRestart (clicked + 100)%Q (render w)]
                         (setAppState Idle w))).
  { unfold w2, step. cbn [appState react rs_appState setAppState
      set_restartTimeout upd_env upd_react bool_decide decide_rel andb].
    rewrite (bool_decide_eq_true_2 _ Hd). reflexivity. }
  clearbody w2. subst w2.
  set (w2 := setDuration d _) in *.
  assert (E3 : w3 = handleStart (render w) fired (set_restartTimeout [] w2)).
  { unfold w3, step. cbn [w2 restartTimeout env env_restart setDuration
      persist andThen upd_env upd_react set_restartTimeout setAppState rs_due rs_closure].
    apply Qle_bool_iff in Hdue. rewrite Hdue. reflexivity. }
  split; [reflexivity|]. split.
  { intros early Hearly. unfold step.
    cbn [restartTimeout env env_restart set_restartTimeout upd_env rs_due].
    destruct (Qle_bool (clicked + 100) early) eqn:E; [|reflexivity].
    apply Qle_bool_iff in E. lra. }
  destruct (handleStart_fields (render w) fired (set_restartTimeout [] w2))
    as (H1 & H2 & H3 & _).
  destruct (handleStart_more (render w) fired (set_restartTimeout [] w2))
    as (H4 & H5 & H6).
  rewrite <- E3 in H1, H2, H3, H4, H5, H6.
  repeat split; assumption.
Qed.

Lemma restart_starts_with_captured_duration_witness :
  appState (step 121000%Q (AnimationFrame 121000%Q) mutedSession) = Complete /\
  remainingTime
    (step 121300%Q RestartTimeout
       (step 121150%Q (ClickDuration 300)
          (step 121100%Q ClickRestart
             (step 121000%Q (AnimationFrame 121000%Q) mutedSession)))) = 120 /\
  duration
    (step 121300%Q RestartTimeout
       (step 121150%Q (ClickDuration 300)
          (step 121100%Q ClickRestart
             (step 121000%Q (AnimationFrame 121000%Q) mutedSession)))) = 300.
Proof.
  split; [reflexivity|].
  pose proof (restart_starts_with_captured_duration 121100%Q 121150%Q 121300%Q 300
                (step 121000%Q (AnimationFrame 121000%Q) mutedSession)
                eq_refl eq_refl ltac:(set_solver) ltac:(discriminate)) as H.
  cbv zeta in H. split; [apply H | apply H].
Defined.

Create HintDb frame.

Lemma preserves_skip {A} (obs : World -> A) : preserves obs skip.
Proof. intros w. reflexivity. Qed.

Lemma preserves_andThen {A} (obs : World -> A) c1 c2 :
  preserves obs c1 -> preserves obs c2 -> preserves obs (c1 >> c2).
Proof. intros H1 H2 w. unfold andThen. now rewrite H2, H1. Qed.

Lemma preserves_when {A} (obs : World -> A) b c :
  preserves obs c -> preserves obs (when b c).
Proof. intros H. destruct b; [exact H | apply preserves_skip]. Qed.

Lemma preserves_if {A} (obs : World -> A) (b : bool) c1 c2 :
  preserves obs c1 -> preserves obs c2 -> preserves obs (if b then c1 else c2).
Proof. destruct b; auto. Qed.

Lemma duration_upd_refs f : preserves duration (upd_refs f).
Proof. intros w. reflexivity. Qed.

Lemma duration_upd_globals f : preserves duration (upd_globals f).
Proof. intros w. reflexivity. Qed.

Lemma duration_upd_env f : preserves duration (upd_env f).
Proof. intros w. reflexivity. Qed.

Lemma duration_on_ytPlayer f : preserves duration (on_ytPlayer f).
Proof. intros w. reflexivity. Qed.

Lemma duration_on_fallbackAudio f : preserves duration (on_fallbackAudio f).
Proof. intros w. reflexivity. Qed.

Lemma duration_setAppState v : preserves duration (setAppState v).
Proof. intros w. reflexivity. Qed.

Lemma duration_setRemainingTime v : preserves duration (setRemainingTime v).
Proof. intros w. reflexivity. Qed.

Lemma duration_setCurrentPhase v : preserves duration (setCurrentPhase v).
Proof. intros w. reflexivity. Qed.

Lemma duration_setAriaAnnouncement v : preserves duration (setAriaAnnouncement v).
Proof. intros w. reflexivity. Qed.

Lemma duration_setUseFallback v : preserves duration (setUseFallback v).
Proof. intros w. reflexivity. Qed.

Lemma duration_setShowYoutubeError v : preserves duration (setShowYoutubeError v).
Proof. intros w. reflexivity. Qed.

Lemma duration_setIsMuted v : preserves duration (setIsMuted v).
Proof. intros w. reflexivity. Qed.

Lemma duration_setVolume v : preserves duration (setVolume v).
Proof. intros w. reflexivity. Qed.

Lemma duration_clearFallbackTimeout : preserves duration clearFallbackTimeout.
Proof. intros w. reflexivity. Qed.

Lemma duration_set_fallbackTimeoutRef v : preserves duration (set_fallbackTimeoutRef v).
Proof. intros w. reflexivity. Qed.

Lemma duration_set_startTimeRef v : preserves duration (set_startTimeRef v).
Proof. intros w. reflexivity. Qed.

Lemma duration_set_pauseTimeRef v : preserves duration (set_pauseTimeRef v).
Proof. intros w. reflexivity. Qed.

Lemma duration_set_lastPhaseRef v : preserves duration (set_lastPhaseRef v).
Proof. intros w. reflexivity. Qed.

Lemma duration_set_smoothVolumeInterval v :
  preserves duration (set_smoothVolumeInterval v).
Proof. intros w. reflexivity. Qed.

#[local] Hint Resolve duration_clearFallbackTimeout duration_set_fallbackTimeoutRef
  duration_set_startTimeRef duration_set_pauseTimeRef duration_set_lastPhaseRef
  duration_set_smoothVolumeInterval : frame.

#[local] Hint Resolve preserves_skip preserves_andThen preserves_when preserves_if
  duration_upd_refs duration_upd_globals duration_upd_env duration_on_ytPlayer
  duration_on_fallbackAudio duration_setAppState duration_setRemainingTime
  duration_setCurrentPhase duration_setAriaAnnouncement duration_setUseFallback
  duration_setShowYoutubeError duration_setIsMuted duration_setVolume : frame.


Lemma duration_playMusic r now : preserves duration (playMusic r now).
Proof.
  intros w. unfold playMusic. destruct (r_useFallback r); [reflexivity|].
  destruct (ytPlayer w); reflexivity.
Qed.

Lemma duration_pauseMusic r : preserves duration (pauseMusic r).
Proof. unfold pauseMusic. auto 6 with frame. Qed.

Lemma duration_stopMusic r : preserves duration (stopMusic r).
Proof. unfold stopMusic. auto 6 with frame. Qed.

#[local] Hint Resolve duration_playMusic duration_pauseMusic duration_stopMusic : frame.

Lemma duration_handleStart r now : preserves duration (handleStart r now).
Proof. unfold handleStart. auto 10 with frame. Qed.

Lemma duration_handlePause r now : preserves duration (handlePause r now).
Proof. unfold handlePause. auto 10 with frame. Qed.

Lemma duration_handleResume r now : preserves duration (handleResume r now).
Proof. intros w. apply handleResume_fields. Qed.

Lemma duration_handleEnd r : preserves duration (handleEnd r).
Proof. unfold handleEnd. auto 10 with frame. Qed.

Lemma duration_handleComplete r : preserves duration (handleComplete r).
Proof. unfold handleComplete. auto 10 with frame. Qed.

Lemma duration_handleRestart r now : preserves duration (handleRestart r now).
Proof. intros w. reflexivity. Qed.

#[local] Hint Resolve duration_handleStart duration_handlePause duration_handleResume
  duration_handleEnd duration_handleComplete duration_handleRestart : frame.

Lemma duration_tick r ts : preserves duration (tick r ts).
Proof.
  intros w. unfold tick.
  destruct (Qle_bool _ 0); [now rewrite duration_handleComplete|].
  destruct (decide _); reflexivity.
Qed.

Lemma duration_handleKeyDown r now key : preserves duration (handleKeyDown r now key).
Proof.
  unfold handleKeyDown.
  do 4 (apply preserves_if; [auto with frame|]). apply preserves_skip.
Qed.

Lemma duration_handleMuteToggle r now : preserves duration (handleMuteToggle r now).
Proof. unfold handleMuteToggle. auto 12 with frame. Qed.

Lemma duration_handleVolumeChange r now v :
  preserves duration (handleVolumeChange r now v).
Proof.
  intros w. unfold handleVolumeChange, andThen.
  destruct (r_useFallback r).
  - destruct (fallbackAudio (setVolume v w)); [|reflexivity].
    destruct (decide _); reflexivity.
  - destruct (ytPlayer (setVolume v w)) as [p|] eqn:Hp; [|reflexivity].
    destruct (decide _); [|reflexivity].
    unfold smoothSetVolume. rewrite Hp.
    destruct (_ && _); [reflexivity|]. destruct (_ && _); reflexivity.
Qed.

Lemma duration_fallbackTimeoutCallback wd :
  preserves duration (fallbackTimeoutCallback wd).
Proof.
  intros w. unfold fallbackTimeoutCallback.
  destruct (ytPlayer w); [|reflexivity]. destruct (decide _); reflexivity.
Qed.

Lemma duration_smoothVolumeCallback sm : preserves duration (smoothVolumeCallback sm).
Proof. unfold smoothVolumeCallback. cbv zeta. auto 8 with frame. Qed.

(** Every event but an effective duration button leaves the duration. *)
Lemma duration_step (now : Q) (e : Event) (w : World) :
  (forall d, e <> ClickDuration d) -> duration (step now e w) = duration w.
Proof.
  intros Hne. destruct e; unfold step.
  - apply duration_handleKeyDown.
  - apply preserves_when, duration_handleStart.
  - exfalso. eapply Hne. reflexivity.
  - apply preserves_when, duration_handlePause.
  - apply preserves_when, duration_handleResume.
  - apply preserves_when, duration_handleEnd.
  - apply preserves_when, duration_handleRestart.
  - apply duration_handleMuteToggle.
  - apply duration_handleVolumeChange.
  - unfold handleVisibilityChange. apply preserves_when, duration_handlePause.
  - apply preserves_when, duration_tick.
  - unfold mountEffect. destruct (fallbackAudio w); reflexivity.
  - unfold initPlayer. destruct (ytPlayer w); reflexivity.
  - reflexivity.
  - destruct (ytPlayer w); [|reflexivity]. unfold onStateChange, andThen, when.
    destruct (bool_decide _); reflexivity.
  - destruct (fallbackTimeoutRef w); [|reflexivity].
    destruct (Qle_bool _ _); [|reflexivity].
    unfold andThen. rewrite duration_fallbackTimeoutCallback. reflexivity.
  - destruct (restartTimeout w); [reflexivity|].
    destruct (Qle_bool _ _); [|reflexivity].
    unfold andThen. rewrite duration_handleStart. reflexivity.
  - destruct (smoothVolumeInterval w); [|reflexivity].
    destruct (Qle_bool _ _); [|reflexivity].
    apply duration_smoothVolumeCallback.
Qed.

(** The duration of a session cannot change once it has left the Idle view,
    whatever happens; and through any run of events the duration stays one of
    the listed options when it was one. *)
Theorem duration_only_changes_in_idle :
  (forall now e w, appState w <> Idle -> duration (step now e w) = duration w) /\
  (forall trace w, duration w ∈ DURATION_OPTIONS ->
     duration (run trace w) ∈ DURATION_OPTIONS).
Proof.
  assert (Hstep : forall now e w,
    duration (step now e w) = duration w \/
    (appState w = Idle /\ duration (step now e w) ∈ DURATION_OPTIONS)).
  { intros now e w.
    assert (Hcase : (exists d, e = ClickDuration d) \/ (forall d, e <> ClickDuration d)).
    { destruct e; try (right; intros d0; discriminate). left. eauto. }
    destruct Hcase as [[d ->]|Hno].
    - unfold step.
      destruct (bool_decide (appState w = Idle)) eqn:E1; [|left; reflexivity].
      destruct (bool_decide (d ∈ DURATION_OPTIONS)) eqn:E2; [|left; reflexivity].
      right. apply bool_decide_eq_true in E1, E2. split; [exact E1 | exact E2].
    - left. apply duration_step. exact Hno. }
  split.
  - intros now e w Hst. destruct (Hstep now e w) as [H | [H _]]; [exact H | contradiction].
  - intros trace. induction trace as [|[now e] trace IH]; intros w Hw; [exact Hw|].
    cbn [run]. apply IH. destruct (Hstep now e w) as [-> | [_ H]]; assumption.
Qed.

Lemma duration_only_changes_in_idle_witness :
  duration (run [ (100%Q, ClickDuration 300); (200%Q, ClickDuration 7);
                  (1000%Q, ClickStart); (2000%Q, ClickDuration 180) ] firstVisit)
  ∈ DURATION_OPTIONS.
Proof.
  apply (proj2 duration_only_changes_in_idle). set_solver.
Defined.

(** * The mute button and the volume slider, continued *)

Lemma mute_toggle_fields (now : Q) (w : World) :
  let w' := step now ClickMute w in
  isMuted w' = negb (isMuted w) /\
  useFallback w' = useFallback w /\
  localStorage w' !! "isMuted" = Some (JBool (negb (isMuted w))) /\
  (useFallback w = true ->
     au_muted <$> fallbackAudio w' = (fun _ => negb (isMuted w)) <$> fallbackAudio w) /\
  (useFallback w = false ->
     yt_muted <$> ytPlayer w' = (fun _ => negb (isMuted w)) <$> ytPlayer w).
Proof.
  intros w'. unfold w'. rewrite step_mute.
  unfold handleMuteToggle, render. cbn [r_isMuted r_useFallback r_appState].
  unfold playMusic, pauseMusic. cbn [r_useFallback r_isMuted r_volume].
  unfold andThen, when, skip, clearFallbackTimeout, on_fallbackAudio, on_ytPlayer.
  destruct (isMuted w) eqn:Hm, (useFallback w) eqn:Hf;
    cbn [negb andb];
    destruct (bool_decide (appState w = Active) || bool_decide (appState w = Paused));
    cbn; cbn in Hm, Hf; rewrite ?Hm, ?Hf;
    destruct (g_ytPlayer (globals w)), (g_fallbackAudio (globals w)); cbn;
    repeat split; intros; try reflexivity; try congruence;
    try apply lookup_insert_eq.
Qed.

(** Toggling mute twice restores the mute cell and stores it; afterwards the
    mute flag of the backend in use agrees with the cell, whether or not it
    did before. *)
Theorem mute_toggle_twice (now now' : Q) (w : World) :
  let w2 := step now' ClickMute (step now ClickMute w) in
  isMuted w2 = isMuted w /\
  localStorage w2 !! "isMuted" = Some (JBool (isMuted w)) /\
  (forall a, useFallback w = true -> fallbackAudio w = Some a ->
     au_muted <$> fallbackAudio w2 = Some (isMuted w)) /\
  (forall p, useFallback w = false -> ytPlayer w = Some p ->
     yt_muted <$> ytPlayer w2 = Some (isMuted w)).
Proof.
  intros w2.
  destruct (mute_toggle_fields now w) as (H1 & H2 & _ & H4 & H5).
  destruct (mute_toggle_fields now' (step now ClickMute w)) as (I1 & _ & I3 & I4 & I5).
  cbv zeta in *. fold w2 in I1, I3, I4, I5.
  set (w1 := step now ClickMute w) in *.
  rewrite H1, negb_involutive in I1, I3, I4, I5.
  split; [exact I1|]. split; [exact I3|]. split.
  - intros a Hf Ha. rewrite H2 in I4. rewrite (I4 Hf).
    specialize (H4 Hf). rewrite Ha in H4.
    destruct (fallbackAudio w1); [reflexivity | discriminate].
  - intros p Hf Hp. rewrite H2 in I5. rewrite (I5 Hf).
    specialize (H5 Hf). rewrite Hp in H5.
    destruct (ytPlayer w1); [reflexivity | discriminate].
Qed.

Lemma mute_toggle_twice_witness :
  isMuted (step 3500%Q ClickMute (step 3000%Q ClickMute unmutedSession)) = false /\
  yt_muted <$> ytPlayer (step 3500%Q ClickMute (step 3000%Q ClickMute unmutedSession))
  = Some false.
Proof.
  split.
  - apply (proj1 (mute_toggle_twice 3000%Q 3500%Q unmutedSession)).
  - eapply (proj2 (proj2 (proj2 (mute_toggle_twice 3000%Q 3500%Q unmutedSession))));
      reflexivity.
Defined.

(** In fallback mode a slider value between 0 and 100 sets the volume of the
    audio element to a value between 0 and 1, the range the element accepts,
    and sends it no playback request. *)
Theorem fallback_volume_in_unit_range (now : Q) (v : Z) (w : World) (a : HTMLAudioElement) :
  0 <= v <= 100 ->
  useFallback w = true ->
  fallbackAudio w = Some a ->
  exists a', fallbackAudio (step now (VolumeInput v) w) = Some a' /\
    (au_volume a' == inject_Z v / 100)%Q /\
    (0 <= au_volume a')%Q /\ (au_volume a' <= 1)%Q /\
    au_calls a' = au_calls a.
Proof.
  intros Hv Hf Ha. rewrite step_volume.
  unfold handleVolumeChange, andThen, render. cbn [r_useFallback]. rewrite Hf.
  change (fallbackAudio (setVolume v w)) with (fallbackAudio w). rewrite Ha.
  assert (H0 : (0 <= inject_Z v / 100)%Q).
  { apply Qle_shift_div_l; [reflexivity|]. rewrite Qmult_0_l.
    change 0%Q with (inject_Z 0). rewrite <- Zle_Qle. lia. }
  assert (H1 : (inject_Z v / 100 <= 1)%Q).
  { apply Qle_shift_div_r; [reflexivity|]. rewrite Qmult_1_l.
    change 100%Q with (inject_Z 100). rewrite <- Zle_Qle. lia. }
  destruct (decide _); eexists; (split; [reflexivity|]); cbn; repeat split;
    try assumption; reflexivity.
Qed.

Lemma fallback_volume_in_unit_range_witness :
  exists a', fallbackAudio (step 7000%Q (VolumeInput 25)
               (step 5000%Q FallbackTimeout unmutedSession)) = Some a' /\
    (au_volume a' == inject_Z 25 / 100)%Q /\
    (0 <= au_volume a')%Q /\ (au_volume a' <= 1)%Q /\
    au_calls a' = [AudioPlay].
Proof.
  apply (fallback_volume_in_unit_range 7000%Q 25
           (step 5000%Q FallbackTimeout unmutedSession)
           (mkAudio (inject_Z 40 / 100)%Q false 0%Q [AudioPlay]));
    [lia | reflexivity | reflexivity].
Defined.

(** * Volume smoothing, continued *)

Lemma round_mono (x y : Q) : (x <= y)%Q -> JS.round x <= JS.round y.
Proof. intros H. unfold JS.round. apply Qfloor_resp_le. lra. Qed.

(** A point of the line between two integers rounds to an integer between
    them. *)
Lemma round_line_between (a b k : Z) :
  0 <= k <= 10 ->
  Z.min a b
  <= JS.round (inject_Z a + (inject_Z b - inject_Z a) / inject_Z steps * inject_Z k)%Q
  <= Z.max a b.
Proof.
  intros Hk.
  set (x := (inject_Z a + (inject_Z b - inject_Z a) / inject_Z steps * inject_Z k)%Q).
  assert (Hk0 : (0 <= inject_Z k)%Q) by (change 0%Q with (inject_Z 0); rewrite <- Zle_Qle; lia).
  assert (Hk1 : (inject_Z k <= 10)%Q) by (change 10%Q with (inject_Z 10); rewrite <- Zle_Qle; lia).
  assert (Ex : (x == inject_Z a + (inject_Z b - inject_Z a) * (inject_Z k / 10))%Q).
  { unfold x, steps. change (inject_Z 10) with 10%Q. field. }
  assert (Ht0 : (0 <= inject_Z k / 10)%Q) by (apply Qle_shift_div_l; lra).
  assert (Ht1 : (inject_Z k / 10 <= 1)%Q) by (apply Qle_shift_div_r; lra).
  set (t := (inject_Z k / 10)%Q) in *.
  destruct (Z.le_ge_cases a b) as [Hab|Hab].
  - assert (Hq : (inject_Z a <= inject_Z b)%Q) by (rewrite <- Zle_Qle; exact Hab).
    rewrite Z.min_l, Z.max_r by lia. split.
    + rewrite <- (round_inject_Z a). apply round_mono. rewrite Ex. nra.
    + rewrite <- (round_inject_Z b). apply round_mono. rewrite Ex. nra.
  - assert (Hq : (inject_Z b <= inject_Z a)%Q) by (rewrite <- Zle_Qle; exact Hab).
    rewrite Z.min_r, Z.max_l by lia. split.
    + rewrite <- (round_inject_Z b). apply round_mono. rewrite Ex. nra.
    + rewrite <- (round_inject_Z a). apply round_mono. rewrite Ex. nra.
Qed.

(** While a volume change on the primary backend is smoothed, the player's
    volume never leaves the range between the volume it had and the target:
    no overshoot at any of the ten steps. *)
Theorem smoothing_stays_between (now : Q) (v : Z) (k : nat) (w : World) (p : Player) :
  useFallback w = false ->
  ytPlayer w = Some p ->
  yt_state p <> UNSTARTED ->
  (1 <= k <= 10)%nat ->
  exists pk,
    ytPlayer (smoothTicks k now (step now (VolumeInput v) w)) = Some pk /\
    Z.min (yt_volume p) v <= yt_volume pk <= Z.max (yt_volume p) v.
Proof.
  intros Hf Hp Hst Hk.
  destruct (handleVolumeChange_primary now v w p Hf Hp Hst)
    as ((p1 & Hp1 & Hv1 & _) & Hsm1 & _).
  cbv zeta in Hp1, Hsm1.
  set (w1 := step now (VolumeInput v) w) in *.
  set (sm := mkSmoothing (now + stepDuration)%Q (yt_volume p)
               ((inject_Z v - inject_Z (yt_volume p)) / inject_Z steps)%Q 0) in *.
  destruct (smooth_ticks k now sm p1 w1 Hsm1 Hp1) as (Hpk & _);
    [reflexivity | lia | unfold sm, steps; cbn [sm_i]; lia |].
  eexists. split; [exact Hpk|].
  cbn [yt_volume yt_setVolume sm sm_from sm_step sm_i]. rewrite Z.add_0_l.
  apply round_line_between. lia.
Qed.

Lemma smoothing_stays_between_witness :
  exists pk,
    ytPlayer (smoothTicks 4 5000 (step 5000%Q (VolumeInput 73)
                (step 4000%Q (PlayerStateChange PLAYING) unmutedSession))) = Some pk /\
    Z.min 40 73 <= yt_volume pk <= Z.max 40 73.
Proof.
  apply (smoothing_stays_between 5000%Q 73 4
           (step 4000%Q (PlayerStateChange PLAYING) unmutedSession)
           (mkPlayer PLAYING 40 false [PlayVideo]));
    [reflexivity | reflexivity | discriminate | lia].
Defined.

Lemma smooth_tick_frame (now : Q) (w : World) :
  react (step now SmoothVolumeTick w) = react w /\
  yt_state <$> ytPlayer (step now SmoothVolumeTick w) = yt_state <$> ytPlayer w.
Proof.
  unfold step. destruct (smoothVolumeInterval w) as [sm|]; [|split; reflexivity].
  destruct (Qle_bool _ _); [|split; reflexivity].
  unfold smoothVolumeCallback, andThen, on_ytPlayer. cbv zeta.
  destruct (steps <=? sm_i sm + 1); cbn;
    destruct (g_ytPlayer (globals w)); split; reflexivity.
Qed.

Lemma smoothTicks_frame (k : nat) (t : Q) (w : World) :
  react (smoothTicks k t w) = react w /\
  yt_state <$> ytPlayer (smoothTicks k t w) = yt_state <$> ytPlayer w.
Proof.
  revert t w. induction k as [|k IH]; intros t w; [split; reflexivity|].
  cbn [smoothTicks].
  destruct (IH (t + stepDuration)%Q (step (t + stepDuration)%Q SmoothVolumeTick w))
    as (H1 & H2).
  destruct (smooth_tick_frame (t + stepDuration)%Q w) as (H3 & H4).
  split; congruence.
Qed.

Lemma volume_input_keeps_mode (now : Q) (v : Z) (w : World) :
  useFallback (step now (VolumeInput v) w) = useFallback w.
Proof.
  rewrite step_volume. unfold handleVolumeChange, andThen.
  destruct (r_useFallback (render w)).
  - destruct (fallbackAudio (setVolume v w)); [|reflexivity].
    destruct (decide _); reflexivity.
  - destruct (ytPlayer (setVolume v w)) as [p|] eqn:Hp; [|reflexivity].
    destruct (decide _); [|reflexivity].
    unfold smoothSetVolume. rewrite Hp.
    destruct (_ && _); [reflexivity|]. destruct (_ && _); reflexivity.
Qed.

(** A second volume change while the first is still being smoothed replaces
    the running interval: ten firings after the second change the player's
    volume is the second target and no interval is left. *)
Theorem second_volume_change_wins
    (now now2 : Q) (v v2 : Z) (k : nat) (w : World) (p : Player) :
  useFallback w = false ->
  ytPlayer w = Some p ->
  yt_state p <> UNSTARTED ->
  (k < 10)%nat ->
  let interrupted := smoothTicks k now (step now (VolumeInput v) w) in
  let final := smoothTicks 10 now2 (step now2 (VolumeInput v2) interrupted) in
  yt_volume <$> ytPlayer final = Some v2 /\
  smoothVolumeInterval final = None.
Proof.
  intros Hf Hp Hst Hk interrupted final.
  destruct (handleVolumeChange_primary now v w p Hf Hp Hst) as ((p1 & Hp1 & _) & _).
  cbv zeta in Hp1.
  destruct (smoothTicks_frame k now (step now (VolumeInput v) w)) as (Hr & Hs).
  fold interrupted in Hr, Hs.
  assert (Hf' : useFallback interrupted = false).
  { unfold useFallback. rewrite Hr. fold (useFallback (step now (VolumeInput v) w)).
    rewrite volume_input_keeps_mode. exact Hf. }
  assert (Hs1 : yt_state <$> ytPlayer (step now (VolumeInput v) w) = Some (yt_state p)).
  { destruct (handleVolumeChange_primary now v w p Hf Hp Hst) as (_ & _ & _).
    unfold step at 1. fold (step now (VolumeInput v) w).
    rewrite step_volume. unfold handleVolumeChange, andThen, render.
    cbn [r_useFallback]. rewrite Hf.
    change (ytPlayer (setVolume v w)) with (ytPlayer w). rewrite Hp.
    destruct (decide (yt_state p <> UNSTARTED)); [|contradiction].
    unfold smoothSetVolume, on_ytPlayer.
    change (ytPlayer (setVolume v w)) with (ytPlayer w). rewrite Hp.
    destruct (_ && _); [|destruct (_ && _)]; cbn; cbn in Hp; rewrite ?Hp; reflexivity. }
  rewrite Hs1 in Hs.
  destruct (ytPlayer interrupted) as [pk|] eqn:Hpk; [|discriminate].
  injection Hs as Hs.
  assert (Hst' : yt_state pk <> UNSTARTED) by (rewrite Hs; exact Hst).
  destruct (handleVolumeChange_primary now2 v2 interrupted pk Hf' Hpk Hst')
    as ((p2 & Hp2 & Hv2 & _) & Hsm2 & _).
  cbv zeta in Hp2, Hsm2.
  set (w2 := step now2 (VolumeInput v2) interrupted) in *.
  set (sm := mkSmoothing (now2 + stepDuration)%Q (yt_volume pk)
               ((inject_Z v2 - inject_Z (yt_volume pk)) / inject_Z steps)%Q 0) in *.
  destruct (smooth_ticks 10 now2 sm p2 w2 Hsm2 Hp2) as (Hfin & _ & Hdone);
    [reflexivity | lia | unfold sm, steps; cbn [sm_i]; lia |].
  fold final in Hfin, Hdone.
  split; [|apply Hdone; reflexivity].
  rewrite Hfin. cbn [fmap option_fmap option_map yt_volume yt_setVolume sm sm_from sm_step sm_i].
  f_equal. rewrite <- (round_inject_Z v2) at 2. apply round_comp.
  unfold steps. change (inject_Z (0 + Z.of_nat 10)) with 10%Q.
  change (inject_Z 10) with 10%Q. field.
Qed.

Lemma second_volume_change_wins_witness :
  yt_volume <$> ytPlayer
    (smoothTicks 10 5040
       (step 5040%Q (VolumeInput 10)
          (smoothTicks 3 5000
             (step 5000%Q (VolumeInput 73)
                (step 4000%Q (PlayerStateChange PLAYING) unmutedSession)))))
  = Some 10.
Proof.
  apply (second_volume_change_wins 5000%Q 5040%Q 73 10 3
           (step 4000%Q (PlayerStateChange PLAYING) unmutedSession)
           (mkPlayer PLAYING 40 false [PlayVideo]));
    [reflexivity | reflexivity | discriminate | lia].
Defined.

(** * The backup backend, once settled *)

Ltac settle :=
  intros calls w [(Hu & Hw & Hrs) Hc];
  unfold settled, onBackup, playerCalls in *; cbn in Hu, Hw, Hrs, Hc;
  destruct (g_ytPlayer (globals w)) as [p|] eqn:Hp; [|discriminate];
  cbn in Hc.

Ltac settle_done :=
  cbn;
  try match goal with
      | H : g_ytPlayer (globals _) = Some _ |- _ => rewrite ?H
      end;
  cbn; repeat split; try assumption; try reflexivity.

Lemma settled_playMusic r now :
  r_useFallback r = true -> keepsSettled (playMusic r now).
Proof.
  intros Hr. settle. unfold playMusic, on_fallbackAudio. rewrite Hr. settle_done.
Qed.

Lemma settled_pauseMusic r :
  r_useFallback r = true -> keepsSettled (pauseMusic r).
Proof.
  intros Hr. settle.
  unfold pauseMusic, andThen, clearFallbackTimeout, on_fallbackAudio. rewrite Hr.
  settle_done.
Qed.

Lemma settled_stopMusic r :
  r_useFallback r = true -> keepsSettled (stopMusic r).
Proof.
  intros Hr. settle.
  unfold stopMusic, andThen, clearFallbackTimeout, on_fallbackAudio. rewrite Hr.
  settle_done.
Qed.

Lemma settled_andThen c1 c2 :
  keepsSettled c1 -> keepsSettled c2 -> keepsSettled (c1 >> c2).
Proof. intros H1 H2 calls w H. apply H2, H1, H. Qed.

Lemma settled_when b c : keepsSettled c -> keepsSettled (when b c).
Proof. intros H. destruct b; [exact H | intros calls w Hs; exact Hs]. Qed.

Lemma settled_react (f : ReactState -> ReactState) :
  (forall s, rs_useFallback (f s) = rs_useFallback s) -> keepsSettled (upd_react f).
Proof.
  intros Hf. settle. unfold upd_react. cbn. rewrite Hf, Hp. settle_done.
Qed.

Lemma settled_refs (f : Refs -> Refs) :
  (forall r, ref_fallbackTimeout (f r) = ref_fallbackTimeout r) ->
  keepsSettled (upd_refs f).
Proof.
  intros Hf. settle. unfold upd_refs. cbn. rewrite Hf, Hp. settle_done.
Qed.

Lemma settled_handleStart r now :
  r_useFallback r = true -> keepsSettled (handleStart r now).
Proof.
  intros Hr. unfold handleStart.
  do 5 (apply settled_andThen;
        [|first [ apply settled_when, settled_playMusic, Hr
                | apply settled_react; reflexivity
                | apply settled_refs; reflexivity ]]).
  apply settled_react. reflexivity.
Qed.

Lemma settled_handlePause r now :
  r_useFallback r = true -> keepsSettled (handlePause r now).
Proof.
  intros Hr. unfold handlePause.
  apply settled_andThen; [apply settled_andThen|].
  - apply settled_pauseMusic, Hr.
  - apply settled_react. reflexivity.
  - apply settled_refs. reflexivity.
Qed.

Lemma settled_handleResume r now :
  r_useFallback r = true -> keepsSettled (handleResume r now).
Proof.
  intros Hr. unfold handleResume.
  apply settled_andThen; [apply settled_andThen|].
  - apply settled_when, settled_playMusic, Hr.
  - settle. settle_done.
  - apply settled_react. reflexivity.
Qed.

Lemma settled_handleEnd r :
  r_useFallback r = true -> keepsSettled (handleEnd r).
Proof.
  intros Hr. unfold handleEnd.
  apply settled_andThen; [apply settled_stopMusic, Hr | apply settled_react; reflexivity].
Qed.

Lemma settled_handleComplete r :
  r_useFallback r = true -> keepsSettled (handleComplete r).
Proof.
  intros Hr. unfold handleComplete.
  apply settled_andThen; [apply settled_andThen|].
  - apply settled_stopMusic, Hr.
  - apply settled_react. reflexivity.
  - settle. unfold setAriaAnnouncement, andThen. settle_done.
Qed.

Lemma settled_handleRestart r now :
  r_useFallback r = true -> keepsSettled (handleRestart r now).
Proof.
  intros Hr. settle. unfold handleRestart, andThen. cbn. rewrite Hp. cbn.
  repeat split; try assumption.
  apply Forall_app. split; [exact Hrs|]. constructor; [exact Hr | constructor].
Qed.

Lemma settled_tick r ts :
  r_useFallback r = true -> keepsSettled (tick r ts).
Proof.
  intros Hr calls w Hs. unfold tick.
  destruct (Qle_bool _ 0).
  - apply settled_handleComplete; [exact Hr|].
    revert Hs. apply (settled_react _ ltac:(reflexivity)).
  - destruct (decide _) as [Hd|Hd]; clear Hd; revert calls w Hs; settle;
      unfold setAriaAnnouncement, andThen; settle_done.
Qed.

Lemma settled_handleMuteToggle r now :
  r_useFallback r = true -> keepsSettled (handleMuteToggle r now).
Proof.
  intros Hr. unfold handleMuteToggle. rewrite Hr.
  apply settled_andThen; [apply settled_andThen; [apply settled_andThen|]|].
  - settle. unfold setIsMuted, andThen, persist. settle_done.
  - settle. unfold on_fallbackAudio. settle_done.
  - apply settled_when, settled_playMusic, Hr.
  - apply settled_when, settled_pauseMusic, Hr.
Qed.

Lemma settled_handleVolumeChange r now v :
  r_useFallback r = true -> keepsSettled (handleVolumeChange r now v).
Proof.
  intros Hr. settle. unfold handleVolumeChange, andThen. rewrite Hr.
  change (fallbackAudio (setVolume v w)) with (fallbackAudio w).
  destruct (fallbackAudio w); [|settle_done].
  destruct (decide _); unfold andThen; settle_done.
Qed.

Lemma settled_handleKeyDown r now key :
  r_useFallback r = true -> keepsSettled (handleKeyDown r now key).
Proof.
  intros Hr. unfold handleKeyDown.
  repeat (destruct (_ && _);
          [first [ apply settled_handleStart, Hr | apply settled_handlePause, Hr
                 | apply settled_handleResume, Hr | apply settled_handleEnd, Hr ]|]).
  intros calls w Hs. exact Hs.
Qed.

Lemma settled_step (now : Q) (e : Event) : keepsSettled (step now e).
Proof.
  intros calls w Hs.
  assert (Hr : r_useFallback (render w) = true) by apply Hs.
  destruct e; unfold step.
  - apply settled_handleKeyDown; assumption.
  - apply settled_when; [apply settled_handleStart|]; assumption.
  - apply settled_when; [|assumption].
    clear. settle. unfold setDuration, andThen, persist. settle_done.
  - apply settled_when; [apply settled_handlePause|]; assumption.
  - apply settled_when; [apply settled_handleResume|]; assumption.
  - apply settled_when; [apply settled_handleEnd|]; assumption.
  - apply settled_when; [apply settled_handleRestart|]; assumption.
  - apply settled_handleMuteToggle; assumption.
  - apply settled_handleVolumeChange; assumption.
  - unfold handleVisibilityChange.
    apply settled_when; [apply settled_handlePause|]; assumption.
  - apply settled_when; [apply settled_tick|]; assumption.
  - revert calls w Hs Hr. settle. intros _. unfold mountEffect.
    destruct (fallbackAudio w); settle_done.
  - revert calls w Hs Hr. settle. intros _. unfold initPlayer, ytPlayer. rewrite Hp.
    settle_done.
  - revert calls w Hs Hr. settle. intros _. unfold onReady, andThen, on_ytPlayer.
    settle_done.
  - revert calls w Hs Hr. settle. intros _. unfold ytPlayer. rewrite Hp.
    unfold onStateChange, andThen, when, on_ytPlayer, clearFallbackTimeout, skip.
    destruct (bool_decide _); settle_done.
  - revert calls w Hs Hr. settle. intros _. unfold fallbackTimeoutRef. rewrite Hw.
    settle_done.
  - destruct (restartTimeout w) as [|rs rest] eqn:Hq; [assumption|].
    destruct (Qle_bool _ _); [|assumption].
    assert (Hrs : Forall (fun rs => r_useFallback (rs_closure rs) = true) (rs :: rest)).
    { rewrite <- Hq. apply Hs. }
    apply Forall_cons in Hrs as [Hrs1 Hrs2].
    unfold andThen. apply settled_handleStart; [exact Hrs1|].
    revert calls w Hs Hr Hq. settle. intros _ _. settle_done.
  - destruct (smoothVolumeInterval w) as [sm|]; [|assumption].
    destruct (Qle_bool _ _); [|assumption].
    revert calls w Hs Hr. settle. intros _.
    unfold smoothVolumeCallback, andThen, on_ytPlayer. cbv zeta.
    destruct (steps <=? _); settle_done.
Qed.

(** Once the widget has settled on the backup backend, no run of events
    brings it back, arms the watchdog again or sends another playback
    request to the YouTube player. *)
Theorem backup_mode_leaves_player_alone
    (trace : list (Q * Event)) (calls : list PlayerCall) (w : World) :
  onBackup w ->
  playerCalls w = Some calls ->
  onBackup (run trace w) /\ playerCalls (run trace w) = Some calls.
Proof.
  intros Hb Hc.
  assert (Hs : settled calls w) by (split; assumption).
  clear Hb Hc. revert w Hs.
  induction trace as [|[now e] trace IH]; intros w Hs; [exact Hs|].
  cbn [run]. apply IH, settled_step, Hs.
Qed.

Lemma backup_mode_leaves_player_alone_witness :
  playerCalls
    (run [ (6000%Q, ClickMute); (7000%Q, ClickMute); (8000%Q, VolumeInput 80);
           (9000%Q, KeyDown " "); (9500%Q, KeyDown " "); (9900%Q, ClickEnd);
           (10000%Q, ClickStart) ]
       (step 5000%Q FallbackTimeout unmutedSession))
  = Some [StopVideo; PlayVideo].
Proof.
  apply (backup_mode_leaves_player_alone _ [StopVideo; PlayVideo]
           (step 5000%Q FallbackTimeout unmutedSession)).
  - repeat split; constructor.
  - reflexivity.
Defined.

(** * Frames, visibility and the player becoming ready *)




(** Coming back to a page that was hidden during a session does not resume
    it: the session stays Paused, exactly as the hiding left it, until the
    user resumes. *)
Theorem page_return_does_not_resume (hiddenAt shownAt : Q) (w : World) :
  appState w = Active ->
  let hidden := step hiddenAt (VisibilityChange true) w in
  let shown := step shownAt (VisibilityChange false) hidden in
  shown = hidden /\
  appState shown = Paused /\
  pauseTimeRef shown = hiddenAt /\
  forall now ts, step now (AnimationFrame ts) shown = shown.
Proof.
  intros Hact hidden shown.
  assert (E : shown = hidden) by reflexivity.
  destruct (handlePause_fields (render w) hiddenAt w) as (H1 & _ & _ & H4).
  rewrite <- (step_hidden_active hiddenAt w Hact) in H1, H4. fold hidden in H1, H4.
  rewrite E. repeat split; try assumption.
  intros now ts. unfold step. rewrite H1. reflexivity.
Qed.

Lemma page_return_does_not_resume_witness :
  appState unmutedSession = Active /\
  appState (step 9500%Q (VisibilityChange false)
              (step 9000%Q (VisibilityChange true) unmutedSession)) = Paused.
Proof.
  split; [reflexivity|].
  apply (page_return_does_not_resume 9000%Q 9500%Q unmutedSession). reflexivity.
Defined.

(** The ready callback of the player belongs to the first render: a slider
    change made before the player exists reaches the volume cell only, and
    when the player is created and becomes ready it is given the volume and
    the mute flag of the first render, not the current ones. *)
Theorem ready_player_gets_first_render_values
    (t1 t2 t3 : Q) (v : Z) (fresh : Player) (w : World) :
  useFallback w = false ->
  ytPlayer w = None ->
  let w' := run [ (t1, VolumeInput v); (t2, InitPlayer fresh); (t3, PlayerReady) ] w in
  volume w' = v /\
  yt_volume <$> ytPlayer w' = Some (r_volume (mounted w)) /\
  yt_muted <$> ytPlayer w' = Some (r_isMuted (mounted w)) /\
  playerCalls w' = Some (yt_calls fresh).
Proof.
  intros Hf Hp w'.
  assert (E1 : step t1 (VolumeInput v) w = setVolume v w).
  { rewrite step_volume. unfold handleVolumeChange, andThen, render.
    cbn [r_useFallback]. rewrite Hf.
    change (ytPlayer (setVolume v w)) with (ytPlayer w). rewrite Hp. reflexivity. }
  unfold w'. cbn [run]. rewrite E1.
  unfold step, initPlayer.
  change (ytPlayer (setVolume v w)) with (ytPlayer w). rewrite Hp.
  unfold onReady, andThen, on_ytPlayer, playerCalls. cbn.
  repeat split; reflexivity.
Qed.

Lemma ready_player_gets_first_render_values_witness :
  volume (run [ (100%Q, VolumeInput 80); (300%Q, InitPlayer newPlayer);
                (900%Q, PlayerReady) ] firstVisit) = 80 /\
  yt_volume <$> ytPlayer (run [ (100%Q, VolumeInput 80); (300%Q, InitPlayer newPlayer);
                                (900%Q, PlayerReady) ] firstVisit) = Some 40.
Proof.
  pose proof (ready_player_gets_first_render_values 100%Q 300%Q 900%Q 80 newPlayer
                firstVisit eq_refl eq_refl) as H.
  cbv zeta in H. split; apply H.
Defined.

(** * Binary64 rounding *)

Section Rounding.

Local Open Scope Q_scope.

Lemma round64_comp (x y : Q) : x == y -> Binary64.round x = Binary64.round y.
Proof.
  intros H. unfold Binary64.round. now rewrite (Qred_complete x y H).
Qed.

Lemma pow2_pos (k : Z) : 0 < Binary64.pow2 k.
Proof. apply Qpower_0_lt. reflexivity. Qed.

Lemma pow2_plus (a b : Z) :
  Binary64.pow2 (a + b) == Binary64.pow2 a * Binary64.pow2 b.
Proof. apply Qpower_plus. discriminate. Qed.

Lemma pow2_minus (a b : Z) :
  Binary64.pow2 (a - b) == Binary64.pow2 a / Binary64.pow2 b.
Proof. apply Qpower_minus. discriminate. Qed.

Lemma pow2_le (a b : Z) : (a <= b)%Z -> Binary64.pow2 a <= Binary64.pow2 b.
Proof. intros H. apply Qpower_le_compat_l; [exact H | discriminate]. Qed.

Lemma pow2_lt (a b : Z) : (a < b)%Z -> Binary64.pow2 a < Binary64.pow2 b.
Proof. intros H. apply Qpower_lt_compat_l; [exact H | reflexivity]. Qed.

Lemma pow2_inject (n : Z) : (0 <= n)%Z -> inject_Z (2 ^ n) == Binary64.pow2 n.
Proof. intros H. apply Zpower_Qpower. exact H. Qed.

(** A positive rational lies between the powers of two its numerator and
    denominator give. *)
Lemma log2_bounds (n : Z) (d : positive) :
  (0 < n)%Z ->
  let k := (Z.log2 n - Z.log2 (Zpos d))%Z in
  Binary64.pow2 (k - 1) < n # d /\ n # d < Binary64.pow2 (k + 1).
Proof.
  intros Hn k.
  destruct (Z.log2_spec n Hn) as (Hn1 & Hn2).
  destruct (Z.log2_spec (Zpos d) ltac:(lia)) as (Hd1 & Hd2).
  pose proof (Z.log2_nonneg n) as Hln. pose proof (Z.log2_nonneg (Zpos d)) as Hld.
  set (ln := Z.log2 n) in *. set (ld := Z.log2 (Zpos d)) in *.
  rewrite Zle_Qle in Hn1, Hd1. rewrite Zlt_Qlt in Hn2, Hd2.
  rewrite <- Z.add_1_r in Hn2, Hd2.
  rewrite pow2_inject in Hn1, Hn2, Hd1, Hd2 by lia.
  assert (E : n # d == inject_Z n / inject_Z (Zpos d)) by apply Qmake_Qdiv.
  assert (Hdpos : 0 < inject_Z (Zpos d)) by reflexivity.
  pose proof (pow2_pos ld) as Pld. pose proof (pow2_pos (ld + 1)) as Pld1.
  pose proof (pow2_pos ln) as Pln.
  split.
  - rewrite E. apply Qlt_shift_div_l; [exact Hdpos|].
    replace (k - 1)%Z with (ln - (ld + 1))%Z by (unfold k; lia).
    rewrite pow2_minus.
    apply Qlt_le_trans with (Binary64.pow2 ln / Binary64.pow2 (ld + 1)
                             * Binary64.pow2 (ld + 1)).
    + apply Qmult_lt_l; [|exact Hd2].
      apply Qlt_shift_div_l; [exact Pld1|]. rewrite Qmult_0_l. exact Pln.
    + assert (E2 : Binary64.pow2 ln / Binary64.pow2 (ld + 1) * Binary64.pow2 (ld + 1)
                   == Binary64.pow2 ln) by (field; lra).
      rewrite E2. exact Hn1.
  - rewrite E. apply Qlt_shift_div_r; [exact Hdpos|].
    replace (k + 1)%Z with ((ln + 1) - ld)%Z by (unfold k; lia).
    rewrite pow2_minus.
    apply Qlt_le_trans with (Binary64.pow2 (ln + 1)); [exact Hn2|].
    assert (E2 : Binary64.pow2 (ln + 1)
                 == Binary64.pow2 (ln + 1) / Binary64.pow2 ld * Binary64.pow2 ld)
      by (field; lra).
    rewrite E2 at 1. apply Qmult_le_l; [|exact Hd1].
    apply Qlt_shift_div_l; [exact Pld|]. rewrite Qmult_0_l. apply pow2_pos.
Qed.

Lemma binade_spec (a : Q) :
  0 < a ->
  Binary64.pow2 (Binary64.binade a) <= a /\ a < Binary64.pow2 (Binary64.binade a + 1).
Proof.
  intros Ha. destruct a as [n d].
  assert (Hn : (0 < n)%Z).
  { unfold Qlt in Ha. cbn in Ha. lia. }
  destruct (log2_bounds n d Hn) as (Hlo & Hhi). cbv zeta in Hlo, Hhi.
  unfold Binary64.binade. cbn [Qnum Qden].
  set (k := (Z.log2 n - Z.log2 (Zpos d))%Z) in *.
  destruct (Qle_bool (Binary64.pow2 k) (n # d)) eqn:E.
  - apply Qle_bool_iff in E. split; assumption.
  - split; [apply Qlt_le_weak; exact Hlo|].
    replace (k - 1 + 1)%Z with k by lia.
    apply Qnot_le_lt. intros H. apply Qle_bool_iff in H. congruence.
Qed.

Lemma rne_comp (x y : Q) : x == y -> Binary64.rne x = Binary64.rne y.
Proof.
  intros H. unfold Binary64.rne. rewrite (Qfloor_comp x y H).
  assert (E : (x - inject_Z (Qfloor y) ?= 1 # 2) = (y - inject_Z (Qfloor y) ?= 1 # 2)).
  { apply Qcompare_comp; [now rewrite H | reflexivity]. }
  now rewrite E.
Qed.

Lemma rne_integer (n : Z) : Binary64.rne (inject_Z n) = n.
Proof.
  unfold Binary64.rne. rewrite Qfloor_Z.
  assert (E : (inject_Z n - inject_Z n ?= 1 # 2) = Lt).
  { apply (proj1 (Qlt_alt _ _)). lra. }
  now rewrite E.
Qed.

Lemma rne_ge_floor (q : Q) : (Qfloor q <= Binary64.rne q)%Z.
Proof.
  unfold Binary64.rne. destruct (_ ?= _); [destruct (Z.even _)|..]; lia.
Qed.

Lemma round_pos_positive (a : Q) : 0 < a -> 0 < Binary64.round_pos a.
Proof.
  intros Ha. unfold Binary64.round_pos, Binary64.precision.
  destruct (binade_spec a Ha) as (Hlo & _).
  set (b := Binary64.binade a) in *.
  pose proof (pow2_pos (b - (53 - 1))) as Hulp.
  set (ulp := Binary64.pow2 (b - (53 - 1))) in *.
  assert (Hq : 1 <= a / ulp).
  { apply Qle_shift_div_l; [exact Hulp|]. rewrite Qmult_1_l.
    apply Qle_trans with (Binary64.pow2 b); [|exact Hlo].
    apply pow2_le. lia. }
  assert (Hf : (1 <= Qfloor (a / ulp))%Z).
  { rewrite <- (Qfloor_Z 1). apply Qfloor_resp_le. exact Hq. }
  pose proof (rne_ge_floor (a / ulp)) as Hr.
  assert (Hm : 0 < inject_Z (Binary64.rne (a / ulp))).
  { change 0 with (inject_Z 0). rewrite <- Zlt_Qlt. lia. }
  nra.
Qed.

Lemma Qnum_sign (y : Q) :
  match Qnum y with
  | Z0 => y == 0
  | Zpos _ => 0 < y
  | Zneg _ => y < 0
  end.
Proof.
  destruct y as [[|n|n] d]; cbn [Qnum]; unfold Qeq, Qlt; cbn; lia.
Qed.

(** Rounding keeps the sign. *)
Lemma round64_sign (x : Q) :
  (0 < x -> 0 < Binary64.round x) /\
  (x == 0 -> Binary64.round x == 0) /\
  (x < 0 -> Binary64.round x < 0).
Proof.
  unfold Binary64.round. pose proof (Qred_correct x) as E.
  pose proof (Qnum_sign (Qred x)) as Hs.
  destruct (Qnum (Qred x)) eqn:N.
  - repeat split; intros H; try reflexivity; rewrite E in Hs; lra.
  - pose proof (round_pos_positive (Qred x) Hs) as Hp.
    repeat split; intros H; try exact Hp; rewrite E in Hs; lra.
  - assert (Hn : 0 < - Qred x) by lra.
    pose proof (round_pos_positive (- Qred x) Hn) as Hp.
    repeat split; intros H; try lra; rewrite E in Hs; lra.
Qed.

Lemma round64_nonpos_iff (x : Q) : Binary64.round x <= 0 <-> x <= 0.
Proof.
  destruct (round64_sign x) as (Hp & Hz & Hn).
  destruct (Qcompare_spec x 0) as [H|H|H].
  - specialize (Hz H). split; intros _; lra.
  - specialize (Hn H). split; intros _; lra.
  - specialize (Hp H). split; intros H'; lra.
Qed.

(** Integers of magnitude below [2 ^ 53] are binary64 values: rounding leaves
    them as they are. *)
Lemma round_pos_integer (y : Q) (z : Z) :
  y == inject_Z z -> (0 < z < 2 ^ 53)%Z -> Binary64.round_pos y == inject_Z z.
Proof.
  intros Ey Hz.
  assert (Hy : 0 < y).
  { rewrite Ey. change 0 with (inject_Z 0). rewrite <- Zlt_Qlt. lia. }
  destruct (binade_spec y Hy) as (Hlo & _).
  unfold Binary64.round_pos, Binary64.precision.
  set (b := Binary64.binade y) in *.
  assert (Hb : (b < 53)%Z).
  { destruct (Z_lt_le_dec b 53) as [H|H]; [exact H|exfalso].
    pose proof (pow2_le 53 b H) as Hp.
    assert (Hz' : y < Binary64.pow2 53).
    { rewrite Ey, <- pow2_inject by lia. rewrite <- Zlt_Qlt. lia. }
    lra. }
  set (e := (b - (53 - 1))%Z).
  assert (He : (0 <= - e)%Z) by (unfold e; lia).
  assert (Eulp : Binary64.pow2 e == / inject_Z (2 ^ (- e))).
  { rewrite pow2_inject by exact He.
    replace e with (- - e)%Z at 1 by lia. apply Qpower_opp. }
  assert (Hpw : 0 < inject_Z (2 ^ (- e))).
  { rewrite pow2_inject by exact He. apply pow2_pos. }
  assert (Eq1 : y / Binary64.pow2 e == inject_Z (z * 2 ^ (- e))).
  { rewrite Eulp, Ey, inject_Z_mult. field. lra. }
  rewrite (rne_comp _ _ Eq1), rne_integer, Eulp, inject_Z_mult. field. lra.
Qed.

Lemma round64_integer (z : Z) :
  (- 2 ^ 53 < z < 2 ^ 53)%Z -> Binary64.round (inject_Z z) == inject_Z z.
Proof.
  intros Hz. unfold Binary64.round.
  pose proof (Qred_correct (inject_Z z)) as E.
  pose proof (Qnum_sign (Qred (inject_Z z))) as Hs.
  destruct (Qnum (Qred (inject_Z z))) eqn:N.
  - rewrite <- E. symmetry. exact Hs.
  - apply round_pos_integer; [exact E|].
    rewrite E in Hs. change 0 with (inject_Z 0) in Hs. rewrite <- Zlt_Qlt in Hs. lia.
  - rewrite E in Hs. change 0 with (inject_Z 0) in Hs. rewrite <- Zlt_Qlt in Hs.
    assert (Eo : - Qred (inject_Z z) == inject_Z (- z)).
    { rewrite E, inject_Z_opp. reflexivity. }
    rewrite (round_pos_integer _ (- z) Eo) by lia.
    rewrite inject_Z_opp. ring.
Qed.

(** Rounding is monotone. *)
Lemma rne_mono (x y : Q) : x <= y -> (Binary64.rne x <= Binary64.rne y)%Z.
Proof.
  intros H. pose proof (Qfloor_resp_le _ _ H) as Hf.
  destruct (Z.eq_dec (Qfloor x) (Qfloor y)) as [E|N].
  - unfold Binary64.rne. rewrite <- E.
    destruct (Qcompare_spec (x - inject_Z (Qfloor x)) (1 # 2)) as [Hx|Hx|Hx];
      destruct (Qcompare_spec (y - inject_Z (Qfloor x)) (1 # 2)) as [Hy|Hy|Hy];
      try destruct (Z.even (Qfloor x)); try lia; exfalso; lra.
  - apply Z.le_trans with (Qfloor y); [|apply rne_ge_floor].
    unfold Binary64.rne.
    destruct (_ ?= _); [destruct (Z.even _)|..]; lia.
Qed.

Lemma binade_mono (a b : Q) :
  0 < a -> a <= b -> (Binary64.binade a <= Binary64.binade b)%Z.
Proof.
  intros Ha Hab.
  destruct (binade_spec a Ha) as (Ha1 & _).
  destruct (binade_spec b ltac:(lra)) as (_ & Hb2).
  destruct (Z_lt_le_dec (Binary64.binade b) (Binary64.binade a)) as [Hlt|Hle];
    [exfalso|exact Hle].
  pose proof (pow2_le (Binary64.binade b + 1) (Binary64.binade a) ltac:(lia)). lra.
Qed.

Lemma round_pos_bounds (a : Q) :
  0 < a ->
  Binary64.pow2 (Binary64.binade a) <= Binary64.round_pos a /\
  Binary64.round_pos a <= Binary64.pow2 (Binary64.binade a + 1).
Proof.
  intros Ha. destruct (binade_spec a Ha) as (Hlo & Hhi).
  unfold Binary64.round_pos, Binary64.precision.
  set (b := Binary64.binade a) in *.
  pose proof (pow2_pos (b - (53 - 1))) as Hulp.
  assert (E52 : Binary64.pow2 b == inject_Z (2 ^ 52) * Binary64.pow2 (b - (53 - 1))).
  { rewrite pow2_inject by lia. rewrite <- pow2_plus.
    replace (52 + (b - (53 - 1)))%Z with b by lia. reflexivity. }
  assert (E53 : Binary64.pow2 (b + 1) == inject_Z (2 ^ 53) * Binary64.pow2 (b - (53 - 1))).
  { rewrite pow2_inject by lia. rewrite <- pow2_plus.
    replace (53 + (b - (53 - 1)))%Z with (b + 1)%Z by lia. reflexivity. }
  set (ulp := Binary64.pow2 (b - (53 - 1))) in *.
  assert (H1 : inject_Z (2 ^ 52) <= a / ulp).
  { apply Qle_shift_div_l; [exact Hulp|]. rewrite <- E52. exact Hlo. }
  assert (H2 : a / ulp <= inject_Z (2 ^ 53)).
  { apply Qle_shift_div_r; [exact Hulp|]. rewrite <- E53. lra. }
  apply rne_mono in H1, H2. rewrite rne_integer in H1, H2.
  rewrite Zle_Qle in H1, H2. rewrite E52, E53. split; nra.
Qed.

Lemma round_pos_mono (a b : Q) :
  0 < a -> a <= b -> Binary64.round_pos a <= Binary64.round_pos b.
Proof.
  intros Ha Hab. pose proof (binade_mono a b Ha Hab) as Hk.
  destruct (Z.eq_dec (Binary64.binade a) (Binary64.binade b)) as [E|N].
  - unfold Binary64.round_pos. rewrite E.
    pose proof (pow2_pos (Binary64.binade b - (Binary64.precision - 1))) as Hulp.
    set (ulp := Binary64.pow2 _) in *.
    assert (H : a / ulp <= b / ulp).
    { apply Qle_shift_div_l; [exact Hulp|].
      assert (E1 : a / ulp * ulp == a) by (field; lra). rewrite E1. exact Hab. }
    apply rne_mono in H. rewrite Zle_Qle in H. nra.
  - destruct (round_pos_bounds a Ha) as (_ & H1).
    destruct (round_pos_bounds b ltac:(lra)) as (H2 & _).
    pose proof (pow2_le (Binary64.binade a + 1) (Binary64.binade b) ltac:(lia)). lra.
Qed.

Lemma round64_cases (x : Q) :
  (0 < x /\ Binary64.round x = Binary64.round_pos (Qred x)) \/
  (x == 0 /\ Binary64.round x = 0) \/
  (x < 0 /\ Binary64.round x = - Binary64.round_pos (- Qred x)).
Proof.
  unfold Binary64.round. pose proof (Qred_correct x) as E.
  pose proof (Qnum_sign (Qred x)) as Hs.
  destruct (Qnum (Qred x)); rewrite E in Hs; auto.
Qed.

Lemma round64_mono (x y : Q) : x <= y -> Binary64.round x <= Binary64.round y.
Proof.
  intros H. pose proof (Qred_correct x) as Ex. pose proof (Qred_correct y) as Ey.
  destruct (round64_sign x) as (Xp & Xz & Xn).
  destruct (round64_sign y) as (Yp & Yz & Yn).
  destruct (round64_cases x) as [(Hx & Rx)|[(Hx & Rx)|(Hx & Rx)]];
    destruct (round64_cases y) as [(Hy & Ry)|[(Hy & Ry)|(Hy & Ry)]];
    try (exfalso; lra).
  - rewrite Rx, Ry. apply round_pos_mono; lra.
  - specialize (Xz Hx). specialize (Yp Hy). lra.
  - specialize (Xz Hx). specialize (Yz Hy). lra.
  - specialize (Xn Hx). specialize (Yp Hy). lra.
  - specialize (Xn Hx). specialize (Yz Hy). lra.
  - rewrite Rx, Ry.
    assert (Hm : Binary64.round_pos (- Qred y) <= Binary64.round_pos (- Qred x))
      by (apply round_pos_mono; lra).
    lra.
Qed.

End Rounding.

(** * The timer in binary64 arithmetic *)

Section RoundedTimer.

Local Open Scope Q_scope.

Lemma rounded_step_frame (now ts : Q) (w : World) :
  appState w = Active ->
  Rounded.step now (AnimationFrame ts) w = Rounded.tick (render w) ts w.
Proof. intros H. unfold Rounded.step. rewrite H. reflexivity. Qed.

Lemma rounded_step_pause (now : Q) (w : World) :
  appState w = Active ->
  Rounded.step now ClickPause w = handlePause (render w) now w.
Proof. intros H. unfold Rounded.step, step. rewrite H. reflexivity. Qed.

Lemma rounded_step_resume (now : Q) (w : World) :
  appState w = Paused ->
  Rounded.step now ClickResume w = Rounded.handleResume (render w) now w.
Proof. intros H. unfold Rounded.step. rewrite H. reflexivity. Qed.

Lemma rounded_handleResume_fields r now w :
  appState (Rounded.handleResume r now w) = Active /\
  duration (Rounded.handleResume r now w) = duration w /\
  startTimeRef (Rounded.handleResume r now w)
    = Binary64.round (startTimeRef w + Binary64.round (now - pauseTimeRef w)).
Proof.
  unfold Rounded.handleResume, andThen, when.
  destruct (negb (r_isMuted r)); [|repeat split; reflexivity].
  destruct (playMusic_timing r now w) as (Hr & Hs & Hp & _).
  simpl in *. rewrite Hr, Hs, Hp. repeat split; reflexivity.
Qed.

Lemma rounded_remainingTime_tick r ts w :
  remainingTime (Rounded.tick r ts w)
  = JS.ceil (Binary64.round (Rounded.newRemainingTimeAt r ts w / 1000)).
Proof.
  unfold Rounded.tick. destruct (Qle_bool _ 0).
  - unfold handleComplete, stopMusic, andThen. destruct (r_useFallback r); reflexivity.
  - destruct (decide _); reflexivity.
Qed.

Lemma rounded_completes_iff r ts w :
  Qle_bool (Rounded.newRemainingTimeAt r ts w) 0 = true <->
  Binary64.round (inject_Z (r_duration r) * 1000) <= Rounded.elapsedAt ts w.
Proof.
  unfold Rounded.newRemainingTimeAt. rewrite max0_le0, Qle_bool_iff.
  rewrite round64_nonpos_iff. split; intros H; lra.
Qed.

Lemma rounded_tick_completes r ts w :
  Qle_bool (Rounded.newRemainingTimeAt r ts w) 0 = true ->
  appState (Rounded.tick r ts w) = Complete /\
  remainingTime (Rounded.tick r ts w) = 0%Z /\
  ariaAnnouncement (Rounded.tick r ts w) = "練習完成" /\
  fallbackTimeoutRef (Rounded.tick r ts w) = None /\
  currentPhase (Rounded.tick r ts w) = currentPhase w /\
  lastPhaseRef (Rounded.tick r ts w) = lastPhaseRef w.
Proof.
  intros H.
  assert (Hrem : remainingTime (Rounded.tick r ts w) = 0%Z).
  { rewrite rounded_remainingTime_tick.
    assert (E : Rounded.newRemainingTimeAt r ts w / 1000 == 0).
    { apply Qle_bool_iff in H.
      assert (H0 : 0 <= Rounded.newRemainingTimeAt r ts w)
        by (unfold Rounded.newRemainingTimeAt; apply max0_nonneg).
      assert (E0 : Rounded.newRemainingTimeAt r ts w == 0) by lra.
      rewrite E0. reflexivity. }
    rewrite (round64_comp _ 0 E). reflexivity. }
  unfold Rounded.tick in *. rewrite H in *.
  unfold handleComplete, stopMusic, andThen, clearFallbackTimeout,
    on_fallbackAudio, on_ytPlayer in *.
  destruct (r_useFallback r); repeat split; try reflexivity; exact Hrem.
Qed.

Lemma rounded_tick_running r ts w :
  Qle_bool (Rounded.newRemainingTimeAt r ts w) 0 = false ->
  appState (Rounded.tick r ts w) = appState w /\
  currentPhase (Rounded.tick r ts w) = phaseAt (Rounded.elapsedAt ts w) /\
  lastPhaseRef (Rounded.tick r ts w) = Some (phaseAt (Rounded.elapsedAt ts w)).
Proof.
  intros H. unfold Rounded.tick. rewrite H.
  destruct (decide _) as [Hne|Heq]; simpl; repeat split; try reflexivity.
  simpl in Heq.
  destruct (decide (Some (phaseAt (Rounded.elapsedAt ts w)) = ref_lastPhase (refs w)))
    as [E|E]; [now symmetry | contradiction].
Qed.

Lemma rounded_announced_tick r ts w :
  announced (Rounded.tick r ts w) =
    if Qle_bool (Rounded.newRemainingTimeAt r ts w) 0 then "練習完成" :: announced w
    else if decide (Some (phaseAt (Rounded.elapsedAt ts w)) <> lastPhaseRef w)
         then pc_announcement (PHASES_at (phaseAt (Rounded.elapsedAt ts w)))
                :: announced w
         else announced w.
Proof.
  unfold Rounded.tick. destruct (Qle_bool _ 0).
  - unfold handleComplete, stopMusic, andThen. destruct (r_useFallback r); reflexivity.
  - cbn. destruct (decide _); reflexivity.
Qed.

Lemma rounded_remaining_shift r r' ts ts' w w' :
  r_duration r = r_duration r' ->
  ts - startTimeRef w == ts' - startTimeRef w' ->
  remainingTime (Rounded.tick r ts w) = remainingTime (Rounded.tick r' ts' w').
Proof.
  intros Hd He. rewrite !rounded_remainingTime_tick.
  unfold Rounded.newRemainingTimeAt, Rounded.elapsedAt.
  rewrite Hd, (round64_comp _ _ He). reflexivity.
Qed.

Lemma round64_whole (x : Q) (z : Z) :
  x == inject_Z z -> (- 2 ^ 53 < z < 2 ^ 53)%Z -> Binary64.round x == inject_Z z.
Proof.
  intros Hx Hz. rewrite (round64_comp _ _ Hx). now apply round64_integer.
Qed.

(** ** Pause and resume *)

(** A session started at 9804.9 ms, paused at 65804.9 ms and resumed at
    121635.2 ms (each the binary64 value of that decimal): the frame at the
    pause timestamp displays 65 seconds, the frame at the resume timestamp
    displays 64, and the start timestamp has not moved by the paused
    interval. *)
Lemma pause_resume_may_change_remaining_time :
  appState fractionalSession = Active /\
  0 <= fractionalResume - fractionalPause /\
  remainingTime
    (Rounded.step fractionalPause (AnimationFrame fractionalPause) fractionalSession)
  = 65%Z /\
  appState fractionalResumed = Active /\
  remainingTime
    (Rounded.step fractionalResume (AnimationFrame fractionalResume) fractionalResumed)
  = 64%Z /\
  ~ startTimeRef fractionalResumed
    == startTimeRef fractionalSession + (fractionalResume - fractionalPause).
Proof.
  split; [reflexivity|].
  split; [vm_compute; discriminate|].
  split; [vm_compute; reflexivity|].
  split; [vm_compute; reflexivity|].
  split; [vm_compute; reflexivity|].
  unfold Qeq. vm_compute. discriminate.
Qed.

(** C2, amended. Pausing an Active session and then resuming it leaves it
    Active with, as start timestamp, the binary64 sum of the old start
    timestamp and the binary64 difference of the resume and pause timestamps.
    Whenever that difference and that sum are exact, and in particular
    whenever the start, pause and resume timestamps are whole numbers of
    milliseconds of magnitude below 2^53, the start timestamp has moved
    forward by exactly the paused interval, and a tick any delay after the
    resume (the first tick included) computes the remaining time a tick the
    same delay after the pause timestamp computes: the pause does not count
    as elapsed time. *)
Theorem pause_resume_excludes_pause (w : World) (pausedAt resumedAt : Q) :
  appState w = Active ->
  let paused := Rounded.step pausedAt ClickPause w in
  let resumed := Rounded.step resumedAt ClickResume paused in
  let interval := Binary64.round (resumedAt - pausedAt) in
  let excluded :=
    startTimeRef resumed == startTimeRef w + (resumedAt - pausedAt) /\
    forall now now' later : Q,
      remainingTime
        (Rounded.step now (AnimationFrame (resumedAt + later)) resumed)
      = remainingTime
        (Rounded.step now' (AnimationFrame (pausedAt + later)) w) in
  appState paused = Paused /\
  appState resumed = Active /\
  duration resumed = duration w /\
  startTimeRef resumed = Binary64.round (startTimeRef w + interval) /\
  (interval == resumedAt - pausedAt ->
   Binary64.round (startTimeRef w + interval) == startTimeRef w + interval ->
   excluded) /\
  (forall s p t : Z,
     startTimeRef w == inject_Z s ->
     pausedAt == inject_Z p ->
     resumedAt == inject_Z t ->
     (- 2 ^ 53 < t - p < 2 ^ 53)%Z ->
     (- 2 ^ 53 < s + (t - p) < 2 ^ 53)%Z ->
     excluded).
Proof.
  intros Hact paused resumed interval excluded.
  assert (Hp : paused = handlePause (render w) pausedAt w)
    by (apply rounded_step_pause; assumption).
  destruct (handlePause_fields (render w) pausedAt w) as (Hp1 & Hp2 & Hp3 & Hp4).
  rewrite <- Hp in Hp1, Hp2, Hp3, Hp4.
  assert (Hr : resumed = Rounded.handleResume (render paused) resumedAt paused)
    by (apply rounded_step_resume; assumption).
  destruct (rounded_handleResume_fields (render paused) resumedAt paused)
    as (Hr1 & Hr2 & Hr3).
  rewrite <- Hr in Hr1, Hr2, Hr3. rewrite Hp3, Hp4 in Hr3. fold interval in Hr3.
  assert (Hdur : duration resumed = duration w) by congruence.
  assert (Hex : interval == resumedAt - pausedAt ->
                Binary64.round (startTimeRef w + interval) == startTimeRef w + interval ->
                excluded).
  { intros Hi Hs.
    assert (Hstart : startTimeRef resumed == startTimeRef w + (resumedAt - pausedAt)).
    { rewrite Hr3, Hs, Hi. reflexivity. }
    split; [exact Hstart|].
    intros now now' later. rewrite !rounded_step_frame by assumption.
    apply rounded_remaining_shift.
    - unfold render. cbn [r_duration]. exact Hdur.
    - rewrite Hstart. ring. }
  split; [exact Hp1|]. split; [exact Hr1|]. split; [exact Hdur|].
  split; [exact Hr3|]. split; [exact Hex|].
  intros s p t Hs Hpz Htz Hb1 Hb2.
  assert (Hi : interval == inject_Z (t - p)).
  { unfold interval. apply round64_whole; [|assumption].
    rewrite Hpz, Htz. unfold Z.sub. rewrite inject_Z_plus, inject_Z_opp. ring. }
  apply Hex.
  - rewrite Hi, Hpz, Htz. unfold Z.sub. rewrite inject_Z_plus, inject_Z_opp. ring.
  - assert (Hsum : startTimeRef w + interval == inject_Z (s + (t - p))).
    { rewrite Hi, Hs, <- inject_Z_plus. reflexivity. }
    rewrite (round64_whole _ _ Hsum Hb2). symmetry. exact Hsum.
Qed.

Lemma pause_resume_excludes_pause_witness :
  appState mutedSession = Active /\
  remainingTime
    (Rounded.step 106000 (AnimationFrame (106000 + 0))
       (Rounded.step 106000 ClickResume (Rounded.step 6000 ClickPause mutedSession)))
  = remainingTime (Rounded.step 6000 (AnimationFrame (6000 + 0)) mutedSession).
Proof.
  split; [reflexivity|].
  apply (proj2 (proj2 (proj2 (proj2 (proj2
           (pause_resume_excludes_pause mutedSession 6000 106000 eq_refl)))))
           1000%Z 6000%Z 106000%Z);
    [reflexivity | reflexivity | reflexivity | lia | lia].
Defined.

(** ** Announcements *)

(** A session started at 1000.2 ms whose first frame comes at 5000.2 ms
    (each the binary64 value of that decimal): the two timestamps differ by
    less than 4000, the elapsed time the tick computes is 4000, and the first
    announcement is the one of HoldIn. *)
Example first_tick_may_round_into_hold :
  lastPhaseRef tenthsSession = None /\
  Binary64.round (50002 # 10) - startTimeRef tenthsSession < 4000 /\
  Rounded.elapsedAt (Binary64.round (50002 # 10)) tenthsSession == 4000 /\
  announced
    (Rounded.step 5001 (AnimationFrame (Binary64.round (50002 # 10))) tenthsSession)
  = ["閉氣開始"].
Proof.
  split; [reflexivity|].
  split; [vm_compute; reflexivity|].
  split; vm_compute; reflexivity.
Qed.

(** C9, amended. Every Start (button, Enter key, the timer armed by Restart)
    resets the last-announced phase to null.  The first tick after it, unless
    it ends the session, therefore always emits an announcement: the one of
    the phase it computes, which is Inhale when the elapsed time that tick
    computes (the binary64 difference of the frame timestamp and the start
    timestamp) is at least 0 and below 4000 ms.  Any tick that does not end
    the session emits the announcement of the computed phase exactly when
    that phase differs from the last announced one, and records it; the tick
    that ends the session emits the completion announcement. *)
Theorem announcements_follow_phase_changes :
  (forall r now w, lastPhaseRef (handleStart r now w) = None) /\
  (forall now w, appState w = Idle ->
     lastPhaseRef (Rounded.step now ClickStart w) = None /\
     lastPhaseRef (Rounded.step now (KeyDown "Enter") w) = None) /\
  (forall now w rs rest, restartTimeout w = rs :: rest -> rs_due rs <= now ->
     appState (Rounded.step now RestartTimeout w) = Active /\
     lastPhaseRef (Rounded.step now RestartTimeout w) = None) /\
  (forall r r' now ts w,
     let w1 := handleStart r now w in
     let elapsed := Binary64.round (ts - now) in
     Qle_bool (Rounded.newRemainingTimeAt r' ts w1) 0 = false ->
     announced (Rounded.tick r' ts w1)
       = pc_announcement (PHASES_at (phaseAt elapsed)) :: announced w1 /\
     (0 <= elapsed -> elapsed < 4000 ->
        announced (Rounded.tick r' ts w1) = "吸氣開始" :: announced w1)) /\
  (forall r ts w,
     Qle_bool (Rounded.newRemainingTimeAt r ts w) 0 = false ->
     let phase := phaseAt (Rounded.elapsedAt ts w) in
     lastPhaseRef (Rounded.tick r ts w) = Some phase /\
     (Some phase <> lastPhaseRef w ->
        announced (Rounded.tick r ts w)
          = pc_announcement (PHASES_at phase) :: announced w) /\
     (Some phase = lastPhaseRef w ->
        announced (Rounded.tick r ts w) = announced w)) /\
  (forall r ts w,
     Qle_bool (Rounded.newRemainingTimeAt r ts w) 0 = true ->
     announced (Rounded.tick r ts w) = "練習完成" :: announced w).
Proof.
  split; [intros r now w; apply handleStart_fields|].
  split.
  { intros now w Hidle.
    unfold Rounded.step, step, Rounded.handleKeyDown, render. cbn [r_appState].
    rewrite Hidle. cbn [bool_decide decide_rel when andb].
    split; apply handleStart_fields. }
  split.
  { intros now w rs rest Hrs Hdue. unfold Rounded.step, step. rewrite Hrs.
    apply Qle_bool_iff in Hdue. rewrite Hdue. unfold andThen.
    split; apply handleStart_fields. }
  split.
  { intros r r' now ts w w1 elapsed Hrun.
    destruct (handleStart_fields r now w) as (_ & Hs & Hl & _).
    fold w1 in Hs, Hl.
    assert (Hann : announced (Rounded.tick r' ts w1)
              = pc_announcement (PHASES_at (phaseAt elapsed)) :: announced w1).
    { rewrite rounded_announced_tick, Hrun, Hl.
      destruct (decide _) as [_|Hn]; [|exfalso; apply Hn; discriminate].
      unfold Rounded.elapsedAt. rewrite Hs. reflexivity. }
    split; [exact Hann|].
    intros Hlo Hhi. rewrite Hann, (phaseAt_first_window _ Hlo Hhi). reflexivity. }
  split.
  { intros r ts w Hrun phase.
    split; [apply (rounded_tick_running r ts w Hrun)|].
    rewrite rounded_announced_tick, Hrun. fold phase.
    split; intros H; destruct (decide _); try reflexivity; contradiction. }
  intros r ts w Hend. now rewrite rounded_announced_tick, Hend.
Qed.

Lemma announcements_follow_phase_changes_witness :
  announced (Rounded.tick (render mutedSession) 1016
               (handleStart (render (loaded firstVisit)) 1000 (loaded firstVisit)))
  = [ "吸氣開始" ].
Proof.
  apply (proj1 (proj2 (proj2 (proj2 announcements_follow_phase_changes))));
    [vm_compute; reflexivity | vm_compute; discriminate | vm_compute; reflexivity].
Defined.

(** ** Completion *)

(** A session of 120 s started at 1000.2 ms with a frame at 121000.2 ms
    (each the binary64 value of that decimal): the two timestamps differ by
    less than 120000, the elapsed time the tick computes is 120000, and the
    tick ends the session. *)
Example tick_may_complete_on_rounded_elapsed :
  r_duration (render tenthsSession) = 120%Z /\
  Binary64.round (1210002 # 10) - startTimeRef tenthsSession < 120000 /\
  Rounded.elapsedAt (Binary64.round (1210002 # 10)) tenthsSession == 120000 /\
  appState
    (Rounded.step 121001 (AnimationFrame (Binary64.round (1210002 # 10))) tenthsSession)
  = Complete.
Proof.
  split; [reflexivity|].
  split; [vm_compute; reflexivity|].
  split; vm_compute; reflexivity.
Qed.

(** A tick of an Active session ends it exactly when the elapsed time it
    computes, the binary64 difference of the frame timestamp and the start
    timestamp, has reached the binary64 value of duration * 1000, which is
    duration * 1000 itself for every duration below 2^53 ms; the tick that
    ends it displays 0 seconds, posts the completion announcement, clears the
    watchdog and leaves the phase as it was. *)
Theorem tick_completes_exactly_at_duration (r : Render) (ts : Q) (w : World) :
  appState w = Active ->
  (appState (Rounded.tick r ts w) = Complete <->
     Binary64.round (inject_Z (r_duration r) * 1000)
       <= Binary64.round (ts - startTimeRef w)) /\
  ((- 2 ^ 53 < r_duration r * 1000 < 2 ^ 53)%Z ->
   (appState (Rounded.tick r ts w) = Complete <->
      inject_Z (r_duration r * 1000) <= Binary64.round (ts - startTimeRef w))) /\
  (appState (Rounded.tick r ts w) = Complete ->
     remainingTime (Rounded.tick r ts w) = 0%Z /\
     ariaAnnouncement (Rounded.tick r ts w) = "練習完成" /\
     fallbackTimeoutRef (Rounded.tick r ts w) = None /\
     currentPhase (Rounded.tick r ts w) = currentPhase w).
Proof.
  intros Hact. fold (Rounded.elapsedAt ts w).
  assert (Hiff : appState (Rounded.tick r ts w) = Complete <->
            Binary64.round (inject_Z (r_duration r) * 1000) <= Rounded.elapsedAt ts w).
  { rewrite <- rounded_completes_iff.
    destruct (Qle_bool (Rounded.newRemainingTimeAt r ts w) 0) eqn:E.
    - destruct (rounded_tick_completes r ts w E) as (Ha & _). tauto.
    - destruct (rounded_tick_running r ts w E) as (Ha & _). rewrite Ha, Hact.
      split; discriminate. }
  split; [exact Hiff|]. split.
  { intros Hb. rewrite Hiff.
    assert (E : Binary64.round (inject_Z (r_duration r) * 1000)
                == inject_Z (r_duration r * 1000)).
    { apply round64_whole; [|exact Hb]. rewrite inject_Z_mult. reflexivity. }
    rewrite E. reflexivity. }
  intros Hc. apply Hiff, rounded_completes_iff in Hc.
  destruct (rounded_tick_completes r ts w Hc) as (_ & H1 & H2 & H3 & H4 & _).
  repeat split; assumption.
Qed.

Lemma tick_completes_exactly_at_duration_witness :
  appState mutedSession = Active /\
  appState (Rounded.tick (render mutedSession) 121000 mutedSession) = Complete.
Proof.
  split; [reflexivity|].
  apply (proj1 (tick_completes_exactly_at_duration (render mutedSession) 121000
                  mutedSession eq_refl)).
  vm_compute. discriminate.
Defined.

(** ** Repeated pauses *)

Lemma totalMilliseconds_cons (p : Z * Z) (rest : list (Z * Z)) :
  totalMilliseconds (p :: rest) = (snd p + totalMilliseconds rest)%Z.
Proof. reflexivity. Qed.

Lemma totalMilliseconds_nonneg (pauses : list (Z * Z)) :
  Forall (fun p => (0 <= snd p)%Z) pauses -> (0 <= totalMilliseconds pauses)%Z.
Proof.
  induction 1 as [|p rest Hp _ IH]; [reflexivity|].
  rewrite totalMilliseconds_cons. lia.
Qed.

Lemma pauseResumeAll_whole (pauses : list (Z * Z)) :
  forall (s : Z) (w : World),
    appState w = Active ->
    startTimeRef w == inject_Z s ->
    (0 <= s)%Z ->
    Forall (fun p => (0 <= snd p)%Z) pauses ->
    (s + totalMilliseconds pauses < 2 ^ 53)%Z ->
    let w' := pauseResumeAll (wholeMilliseconds pauses) w in
    appState w' = Active /\
    duration w' = duration w /\
    startTimeRef w' == inject_Z (s + totalMilliseconds pauses).
Proof.
  induction pauses as [|[p i] rest IH]; intros s w Hact Hs Hs0 Hall Hb.
  - cbn. split; [exact Hact|]. split; [reflexivity|].
    rewrite Hs, Z.add_0_r. reflexivity.
  - inversion Hall as [|? ? Hi Hrest]; subst. cbn [snd] in Hi.
    rewrite totalMilliseconds_cons in Hb. cbn [snd] in Hb.
    pose proof (totalMilliseconds_nonneg rest Hrest) as Htot.
    cbn [wholeMilliseconds map pauseResumeAll fst snd].
    fold (wholeMilliseconds rest).
    rewrite (rounded_step_pause (inject_Z p) w Hact).
    set (paused := handlePause (render w) (inject_Z p) w).
    destruct (handlePause_fields (render w) (inject_Z p) w) as (Hp1 & Hp2 & Hp3 & Hp4).
    fold paused in Hp1, Hp2, Hp3, Hp4.
    rewrite (rounded_step_resume (inject_Z p + inject_Z i) paused Hp1).
    set (resumed := Rounded.handleResume (render paused) (inject_Z p + inject_Z i) paused).
    destruct (rounded_handleResume_fields (render paused) (inject_Z p + inject_Z i) paused)
      as (Hr1 & Hr2 & Hr3).
    fold resumed in Hr1, Hr2, Hr3. rewrite Hp3, Hp4 in Hr3.
    assert (Hint : Binary64.round (inject_Z p + inject_Z i - inject_Z p) == inject_Z i).
    { apply round64_whole; [ring | lia]. }
    assert (Hstart : startTimeRef resumed == inject_Z (s + i)).
    { rewrite Hr3. apply round64_whole; [|lia].
      rewrite Hint, Hs, <- inject_Z_plus. reflexivity. }
    destruct (IH (s + i)%Z resumed Hr1 Hstart ltac:(lia) Hrest ltac:(lia))
      as (I1 & I2 & I3).
    split; [exact I1|]. split; [congruence|].
    rewrite I3, totalMilliseconds_cons. cbn [snd].
    rewrite Z.add_assoc. reflexivity.
Qed.

(** Any number of pause/resume pairs at whole-millisecond timestamps, on a
    session whose start timestamp is a whole number of milliseconds and with
    start plus paused intervals below 2^53, moves the start timestamp forward
    by the sum of the paused intervals and nothing more: the session is
    Active again with its duration, and a frame that many milliseconds later
    displays the remaining time the original session displays without
    them. *)
Theorem repeated_pauses_compose (pauses : list (Z * Z)) (s : Z) (w : World) :
  appState w = Active ->
  startTimeRef w == inject_Z s ->
  (0 <= s)%Z ->
  Forall (fun p => (0 <= snd p)%Z) pauses ->
  (s + totalMilliseconds pauses < 2 ^ 53)%Z ->
  let w' := pauseResumeAll (wholeMilliseconds pauses) w in
  appState w' = Active /\
  duration w' = duration w /\
  startTimeRef w' == startTimeRef w + inject_Z (totalMilliseconds pauses) /\
  forall now now' ts : Q,
    remainingTime
      (Rounded.step now (AnimationFrame (ts + inject_Z (totalMilliseconds pauses))) w')
    = remainingTime (Rounded.step now' (AnimationFrame ts) w).
Proof.
  intros Hact Hs Hs0 Hall Hb w'.
  destruct (pauseResumeAll_whole pauses s w Hact Hs Hs0 Hall Hb) as (Ha & H2 & H3).
  fold w' in Ha, H2, H3.
  assert (Hstart : startTimeRef w' == startTimeRef w + inject_Z (totalMilliseconds pauses)).
  { rewrite H3, Hs, inject_Z_plus. reflexivity. }
  split; [exact Ha|]. split; [exact H2|]. split; [exact Hstart|].
  intros now now' ts. rewrite !rounded_step_frame by assumption.
  apply rounded_remaining_shift.
  - unfold render. cbn [r_duration]. exact H2.
  - rewrite Hstart. ring.
Qed.

Lemma repeated_pauses_compose_witness :
  appState mutedSession = Active /\
  remainingTime
    (Rounded.step 0
       (AnimationFrame (6000 + inject_Z (totalMilliseconds [ (3000, 500); (4000, 70000) ]%Z)))
       (pauseResumeAll (wholeMilliseconds [ (3000, 500); (4000, 70000) ]%Z) mutedSession))
  = remainingTime (Rounded.step 0 (AnimationFrame 6000) mutedSession).
Proof.
  split; [reflexivity|].
  apply (repeated_pauses_compose [ (3000, 500); (4000, 70000) ]%Z 1000%Z mutedSession);
    [reflexivity | reflexivity | lia | repeat constructor; cbn; lia | cbn; lia].
Defined.

(** ** The displayed remaining time *)

Lemma round64_nonneg (x : Q) : 0 <= x -> 0 <= Binary64.round x.
Proof.
  intros H. destruct (round64_sign x) as (Hp & Hz & _).
  destruct (Qle_lt_or_eq _ _ H) as [H1|H1].
  - apply Qlt_le_weak, Hp, H1.
  - rewrite Hz by (symmetry; exact H1). apply Qle_refl.
Qed.

Lemma rounded_newRemainingTimeAt_mono r ts ts' w :
  ts <= ts' ->
  Rounded.newRemainingTimeAt r ts' w <= Rounded.newRemainingTimeAt r ts w.
Proof.
  intros H. unfold Rounded.newRemainingTimeAt, Rounded.elapsedAt.
  apply max0_mono, round64_mono.
  assert (He : Binary64.round (ts - startTimeRef w)
               <= Binary64.round (ts' - startTimeRef w))
    by (apply round64_mono; lra).
  lra.
Qed.

(** The remaining time a tick displays is never negative, whatever the
    timestamp and the duration; when the duration is not negative and the
    frame is not earlier than the start timestamp, it does not exceed the
    duration.  This holds of the exact timer and, for durations below 2^53
    ms, of the timer in binary64 arithmetic. *)
Theorem tick_remaining_in_range (r : Render) (ts : Q) (w : World) :
  ((0 <= remainingTime (tick r ts w))%Z /\
   ((0 <= r_duration r)%Z -> startTimeRef w <= ts ->
    (remainingTime (tick r ts w) <= r_duration r)%Z)) /\
  ((0 <= remainingTime (Rounded.tick r ts w))%Z /\
   ((0 <= r_duration r)%Z -> (r_duration r * 1000 < 2 ^ 53)%Z ->
    startTimeRef w <= ts ->
    (remainingTime (Rounded.tick r ts w) <= r_duration r)%Z)).
Proof.
  split.
  { rewrite remainingTime_tick.
    pose proof (max0_nonneg (inject_Z (r_duration r * 1000) - elapsedAt ts w)) as Hlo.
    fold (newRemainingTimeAt r ts w) in Hlo.
    split.
    - apply Z.le_trans with (JS.ceil (inject_Z 0)); [now rewrite ceil_inject_Z|].
      apply ceil_mono.
      change (inject_Z 0) with 0. apply Qle_shift_div_l; [reflexivity | lra].
    - intros HD Hts.
      assert (Hhi : newRemainingTimeAt r ts w <= inject_Z (r_duration r * 1000)).
      { unfold newRemainingTimeAt.
        assert (HD' : 0 <= inject_Z (r_duration r * 1000)).
        { change 0 with (inject_Z 0). rewrite <- Zle_Qle. lia. }
        apply Qle_trans with (JS.max 0 (inject_Z (r_duration r * 1000))).
        - apply max0_mono. unfold elapsedAt. lra.
        - rewrite (max0_id _ HD'). apply Qle_refl. }
      apply Z.le_trans with (JS.ceil (inject_Z (r_duration r)));
        [|rewrite ceil_inject_Z; lia].
      apply ceil_mono. apply Qle_shift_div_r; [reflexivity|].
      rewrite inject_Z_mult in Hhi. exact Hhi. }
  rewrite rounded_remainingTime_tick.
  assert (Hlo : 0 <= Rounded.newRemainingTimeAt r ts w)
    by (unfold Rounded.newRemainingTimeAt; apply max0_nonneg).
  split.
  - apply Z.le_trans with (JS.ceil (inject_Z 0)); [now rewrite ceil_inject_Z|].
    apply ceil_mono. change (inject_Z 0) with 0. apply round64_nonneg.
    apply Qle_shift_div_l; [reflexivity | lra].
  - intros HD Hb Hts.
    assert (HD' : 0 <= inject_Z (r_duration r * 1000)).
    { change 0 with (inject_Z 0). rewrite <- Zle_Qle. lia. }
    assert (ED : Binary64.round (inject_Z (r_duration r) * 1000)
                 == inject_Z (r_duration r * 1000)).
    { apply round64_whole; [rewrite inject_Z_mult; reflexivity | lia]. }
    assert (He : 0 <= Rounded.elapsedAt ts w)
      by (unfold Rounded.elapsedAt; apply round64_nonneg; lra).
    assert (Hhi : Rounded.newRemainingTimeAt r ts w <= inject_Z (r_duration r * 1000)).
    { unfold Rounded.newRemainingTimeAt.
      apply Qle_trans with (JS.max 0 (inject_Z (r_duration r * 1000)));
        [|rewrite (max0_id _ HD'); apply Qle_refl].
      apply max0_mono.
      apply Qle_trans with (Binary64.round (inject_Z (r_duration r * 1000))).
      - apply round64_mono. rewrite ED. lra.
      - rewrite round64_integer by lia. apply Qle_refl. }
    apply Z.le_trans with (JS.ceil (inject_Z (r_duration r)));
      [|rewrite ceil_inject_Z; lia].
    apply ceil_mono.
    apply Qle_trans with (Binary64.round (inject_Z (r_duration r))).
    + apply round64_mono. apply Qle_shift_div_r; [reflexivity|].
      rewrite inject_Z_mult in Hhi. exact Hhi.
    + rewrite round64_integer by lia. apply Qle_refl.
Qed.

Lemma tick_remaining_in_range_witness :
  (0 <= remainingTime (tick (render mutedSession) 500 mutedSession))%Z /\
  (remainingTime (tick (render mutedSession) 31234 mutedSession) <= 120)%Z /\
  (remainingTime (Rounded.tick (render mutedSession) 31234 mutedSession) <= 120)%Z.
Proof.
  split; [|split].
  - apply (tick_remaining_in_range (render mutedSession) 500 mutedSession).
  - apply (proj2 (proj1 (tick_remaining_in_range (render mutedSession) 31234
                           mutedSession)));
      [vm_compute | vm_compute]; discriminate.
  - apply (proj2 (proj2 (tick_remaining_in_range (render mutedSession) 31234
                           mutedSession)));
      [vm_compute; discriminate | vm_compute; reflexivity | vm_compute; discriminate].
Defined.

(** Against one and the same start timestamp, a later frame timestamp never
    displays more remaining time than an earlier one, in the exact timer and
    in the timer in binary64 arithmetic alike. *)
Theorem tick_remaining_monotone (r : Render) (ts ts' : Q) (w : World) :
  ts <= ts' ->
  (remainingTime (tick r ts' w) <= remainingTime (tick r ts w))%Z /\
  (remainingTime (Rounded.tick r ts' w) <= remainingTime (Rounded.tick r ts w))%Z.
Proof.
  intros H. split.
  - rewrite !remainingTime_tick. apply ceil_mono.
    apply Qmult_le_compat_r; [|discriminate].
    unfold newRemainingTimeAt. apply max0_mono. unfold elapsedAt. lra.
  - rewrite !rounded_remainingTime_tick. apply ceil_mono, round64_mono.
    apply Qmult_le_compat_r; [|discriminate].
    apply rounded_newRemainingTimeAt_mono. exact H.
Qed.

Lemma tick_remaining_monotone_witness :
  2000 <= 2500 /\
  (remainingTime (Rounded.tick (render mutedSession) 2500 mutedSession)
   <= remainingTime (Rounded.tick (render mutedSession) 2000 mutedSession))%Z.
Proof.
  split; [discriminate|].
  apply (tick_remaining_monotone (render mutedSession) 2000 2500 mutedSession).
  discriminate.
Defined.

End RoundedTimer.
